(** * Master liveness tracking and the deactivation cascade

    A shallow embedding of [buildbot/data/masters.py]: the update methods
    [masterActive], [masterStopped] and [expireMasters] of the [Master]
    resource type, together with the housekeeping routine that releases the
    work of a deactivated master.

    The Python code is written with [defer.inlineCallbacks]: every [yield]
    waits for an external call that either returns a value or raises.  It is
    embedded in a state-and-exception monad over a [World] holding the shared
    store, the reactor clock, the outcomes of the upcoming external calls and
    the history of the calls made so far. *)

From stdpp Require Import base gmap list strings fin_maps.
From Stdlib Require Import ZArith.

Open Scope Z_scope.

(** ** The shared store *)

(** Modelled from the spec: the constant [RETRY] of
    [buildbot.process.results] is not part of the sources at hand; the
    specification calls it the sentinel "retry" result. *)
Definition Results : Type := string.

Definition RETRY : Results := "retry"%string.

Record master_row := MasterRow {
  master_name : string;
  master_active : bool;
  master_last_active : option Z
}.

Record build_row := BuildRow {
  build_masterid : Z;
  build_complete : bool;
  build_results : option Results
}.

Record step_row := StepRow {
  step_buildid : Z;
  step_results : option Results;
  step_hidden : bool
}.

Record log_row := LogRow {
  log_stepid : Z;
  log_complete : bool
}.

Record buildrequest_row := BuildRequestRow {
  br_complete : bool;
  br_claimed : option Z
}.

(** Every table is keyed by the integer id of its rows. *)
Record Db := mkDb {
  masters : gmap Z master_row;
  builds : gmap Z build_row;
  steps : gmap Z step_row;
  logs : gmap Z log_row;
  buildrequests : gmap Z buildrequest_row
}.

(** The objects handed to the code by a query: a row together with its id. *)
Module MasterModel.

Definition id (m : Z * master_row) : Z := m.1.

Definition name (m : Z * master_row) : string := master_name m.2.

Definition last_active (m : Z * master_row) : option Z :=
  master_last_active m.2.

End MasterModel.

Definition buildid (build : Z * build_row) : Z := build.1.
Definition stepid (step : Z * step_row) : Z := step.1.
Definition logid (_log : Z * log_row) : Z := _log.1.
Definition buildrequestid (br : Z * buildrequest_row) : Z := br.1.

(** ** Calls and messages *)

(** The message handed to [produceEvent]: [{"masterid", "name", "active"}]. *)
Record Message := mkMessage {
  msg_masterid : Z;
  msg_name : string;
  msg_active : bool
}.

(** The history of a run: one entry per call that the code under study makes
    on its collaborators, in the order of the calls. *)
Inductive Call :=
| CallLogMsg (masterid : Z) (name : string)
| CallMasterDeactivated (rtype : string) (masterid : Z)
| CallSetMasterState (masterid : Z) (active : bool) (changed : bool)
| CallFinishLog (logid : Z)
| CallFinishStep (stepid : Z) (results : Results) (hidden : bool)
| CallFinishBuild (buildid : Z) (results : Results)
| CallUnclaimBuildRequests (brids : list Z)
| CallProduceEvent (msg : Message) (event : string).

Inductive exn :=
| StoreFailure
| ObserverFailure (rtype : string).

Inductive Result (A : Type) :=
| Ok (a : A)
| Raise (e : exn).

Arguments Ok {A} a.
Arguments Raise {A} e.

(** [seconds] is the reading of the reactor clock, [reactor.seconds()], in
    whole seconds.  [faults] lists the outcomes of the upcoming external
    calls (store operations and [_masterDeactivated] of the other resource
    types), first call first: [true] makes the call raise; past the end of
    the list every call succeeds. *)
Record World := mkWorld {
  db : Db;
  seconds : Z;
  faults : list bool;
  trace : list Call
}.

Definition set_faults (fs : list bool) (w : World) : World :=
  mkWorld (db w) (seconds w) fs (trace w).

Definition set_masters (t : gmap Z master_row) (d : Db) : Db :=
  mkDb t (builds d) (steps d) (logs d) (buildrequests d).

Definition set_builds (t : gmap Z build_row) (d : Db) : Db :=
  mkDb (masters d) t (steps d) (logs d) (buildrequests d).

Definition set_steps (t : gmap Z step_row) (d : Db) : Db :=
  mkDb (masters d) (builds d) t (logs d) (buildrequests d).

Definition set_logs (t : gmap Z log_row) (d : Db) : Db :=
  mkDb (masters d) (builds d) (steps d) t (buildrequests d).

Definition set_buildrequests (t : gmap Z buildrequest_row) (d : Db) : Db :=
  mkDb (masters d) (builds d) (steps d) (logs d) t.

(** ** The store as a machine driven by calls *)

Definition set_state (active : bool) (now : Z) (r : master_row) : master_row :=
  MasterRow (master_name r) active
    (if active then Some now else master_last_active r).

Definition finish_log (r : log_row) : log_row :=
  LogRow (log_stepid r) true.

Definition finish_step (results : Results) (hidden : bool) (r : step_row)
  : step_row :=
  StepRow (step_buildid r) (Some results) hidden.

Definition finish_build (results : Results) (r : build_row) : build_row :=
  BuildRow (build_masterid r) true (Some results).

Definition unclaim (r : buildrequest_row) : buildrequest_row :=
  BuildRequestRow (br_complete r) None.

Definition unclaim_all (brids : list Z) (t : gmap Z buildrequest_row)
  : gmap Z buildrequest_row :=
  foldr (alter unclaim) t brids.

(** Modelled from the spec: the store adapter ([db.masters],
    [db.buildrequests], [data.updates]) is not part of the sources at hand.
    Section 6 lists its operations: [setMasterState] sets [active] (section
    4.1: activation refreshes [last_active], an unknown id is a no-op);
    [finishLog] marks a log complete; [finishStep] stores the result and the
    [hidden] flag of a step, which closes it; [finishBuild] stores the result
    of a build and marks it complete; [releaseWorkRequests] clears the claim
    of every listed request.  Logging, notifying another resource type and
    producing an event leave the five tables alone. *)
Definition apply_call (now : Z) (c : Call) (d : Db) : Db :=
  match c with
  | CallSetMasterState masterid active _ =>
      set_masters (alter (set_state active now) masterid (masters d)) d
  | CallFinishLog logid =>
      set_logs (alter finish_log logid (logs d)) d
  | CallFinishStep stepid results hidden =>
      set_steps (alter (finish_step results hidden) stepid (steps d)) d
  | CallFinishBuild buildid results =>
      set_builds (alter (finish_build results) buildid (builds d)) d
  | CallUnclaimBuildRequests brids =>
      set_buildrequests (unclaim_all brids (buildrequests d)) d
  | CallLogMsg _ _ | CallMasterDeactivated _ _ | CallProduceEvent _ _ => d
  end.

Definition replay (now : Z) (d : Db) (calls : list Call) : Db :=
  foldl (fun d c => apply_call now c d) d calls.

(** ** The monad of inlineCallbacks code *)

Definition M (A : Type) : Type := World -> Result A * World.

Definition ret {A} (a : A) : M A := fun w => (Ok a, w).

Definition bind {A B} (m : M A) (k : A -> M B) : M B := fun w =>
  match m w with
  | (Ok a, w') => k a w'
  | (Raise e, w') => (Raise e, w')
  end.

Declare Scope io_scope.
Delimit Scope io_scope with io.
Bind Scope io_scope with M.

Notation "'let*' x ':=' c 'in' k" := (bind c (fun x => k))
  (at level 10, x name, c at level 100, k at level 200) : io_scope.
Notation "c1 '>>' c2" := (bind c1 (fun _ => c2))
  (at level 100, c2 at level 200, right associativity) : io_scope.

Open Scope io_scope.

(** A [for] loop whose body yields. *)
Fixpoint for_each {A} (l : list A) (body : A -> M unit) : M unit :=
  match l with
  | [] => ret tt
  | x :: rest => body x >> for_each rest body
  end.

Definition fails (w : World) : bool :=
  match faults w with
  | true :: _ => true
  | _ => false
  end.

Definition consume (w : World) : World := set_faults (tl (faults w)) w.

(** An external call consumes one outcome and raises when it is a fault. *)
Definition external_call (e : exn) : M unit := fun w =>
  (if fails w then Raise e else Ok tt, consume w).

(** A call that went through: the store moves and the history grows. *)
Definition perform (c : Call) : M unit := fun w =>
  (Ok tt,
   mkWorld (apply_call (seconds w) c (db w)) (seconds w) (faults w)
     (trace w ++ [c])).

Definition read_db : M Db := fun w => (Ok (db w), w).

Definition reactor_seconds : M Z := fun w => (Ok (seconds w), w).

(** ** The store adapter and the other collaborators *)

(** Modelled from the spec: [db.masters.setMasterState(masterid, active)],
    an atomic compare-and-set that reports whether the state changed. *)
Definition setMasterState (masterid : Z) (active : bool) : M bool :=
  external_call StoreFailure >>
  let* d := read_db in
  let changed :=
    match masters d !! masterid with
    | None => false
    | Some row => negb (eqb (master_active row) active)
    end in
  perform (CallSetMasterState masterid active changed) >>
  ret changed.

(** Modelled from the spec: [db.masters.getMasters()] returns the collection
    of all master records. *)
Definition getMasters : M (list (Z * master_row)) :=
  external_call StoreFailure >>
  let* d := read_db in
  ret (map_to_list (masters d)).

(** Modelled from the spec: the data API query [data.get(('builds',), ...)]
    with the filters [masterid eq] and [complete eq]; section 6 gives it as
    [getBuilds(masterid, complete)]. *)
Definition get_builds (masterid : Z) (complete : bool)
  : M (list (Z * build_row)) :=
  external_call StoreFailure >>
  let* d := read_db in
  ret (map_to_list
         (filter (fun b : Z * build_row =>
                    build_masterid b.2 = masterid /\ build_complete b.2 = complete)
                 (builds d))).

(** Modelled from the spec: the query for the steps of a build whose
    [results] are unset, [getSteps(buildid, results=unset)]. *)
Definition get_steps (buildid : Z) : M (list (Z * step_row)) :=
  external_call StoreFailure >>
  let* d := read_db in
  ret (map_to_list
         (filter (fun s : Z * step_row =>
                    step_buildid s.2 = buildid /\ step_results s.2 = None)
                 (steps d))).

(** Modelled from the spec: the query for the logs of a step,
    [getLogs(stepid, complete)]. *)
Definition get_logs (stepid : Z) (complete : bool) : M (list (Z * log_row)) :=
  external_call StoreFailure >>
  let* d := read_db in
  ret (map_to_list
         (filter (fun l : Z * log_row =>
                    log_stepid l.2 = stepid /\ log_complete l.2 = complete)
                 (logs d))).

Definition finishLog (logid : Z) : M unit :=
  external_call StoreFailure >> perform (CallFinishLog logid).

Definition finishStep (stepid : Z) (results : Results) (hidden : bool)
  : M unit :=
  external_call StoreFailure >> perform (CallFinishStep stepid results hidden).

Definition finishBuild (buildid : Z) (results : Results) : M unit :=
  external_call StoreFailure >> perform (CallFinishBuild buildid results).

(** Modelled from the spec: [db.buildrequests.getBuildRequests(complete,
    claimed)] returns the work requests with that [complete] flag that are
    claimed by the given master. *)
Definition getBuildRequests (complete : bool) (claimed : Z)
  : M (list (Z * buildrequest_row)) :=
  external_call StoreFailure >>
  let* d := read_db in
  ret (map_to_list
         (filter (fun br : Z * buildrequest_row =>
                    br_complete br.2 = complete /\ br_claimed br.2 = Some claimed)
                 (buildrequests d))).

Definition unclaimBuildRequests (brids : list Z) : M unit :=
  external_call StoreFailure >> perform (CallUnclaimBuildRequests brids).

(** Modelled from the spec: [_masterDeactivated] of the resource types
    worker, builder, scheduler and changesource is not part of the sources at
    hand; section 6 gives it as [notifyMasterDeactivated(masterid) ->
    success|failure].  The history shows the notification as soon as it is
    made, whatever its outcome. *)
Definition rtype_masterDeactivated (rtype : string) (masterid : Z) : M unit :=
  perform (CallMasterDeactivated rtype masterid) >>
  external_call (ObserverFailure rtype).

Definition log_msg (masterid : Z) (name : string) : M unit :=
  perform (CallLogMsg masterid name).

Definition produceEvent (msg : Message) (event : string) : M unit :=
  perform (CallProduceEvent msg event).

(** Modelled from the spec: [buildbot.util.epoch2datetime] is not part of the
    sources at hand.  A datetime is represented by its epoch seconds, so the
    conversion is the identity and datetimes compare as their epochs do. *)
Definition epoch2datetime (epoch : Z) : Z := epoch.

(** ** buildbot/data/masters.py *)

Definition EXPIRE_MINUTES : Z := 10.

(** The body of the loop over the open steps of a build. *)
Definition stop_step (step : Z * step_row) : M unit :=
  let* logs := get_logs (stepid step) false in
  for_each logs (fun _log => finishLog (logid _log)) >>
  finishStep (stepid step) RETRY false.

(** The body of the loop over the builds running on the master. *)
Definition stop_build (build : Z * build_row) : M unit :=
  let* steps := get_steps (buildid build) in
  for_each steps stop_step >>
  finishBuild (buildid build) RETRY.

Definition _masterDeactivatedHousekeeping (masterid : Z) (name : string)
  : M unit :=
  log_msg masterid name >>
  rtype_masterDeactivated "worker" masterid >>
  rtype_masterDeactivated "builder" masterid >>
  rtype_masterDeactivated "scheduler" masterid >>
  rtype_masterDeactivated "changesource" masterid >>
  let* builds := get_builds masterid false in
  for_each builds stop_build >>
  let* buildrequests := getBuildRequests false masterid in
  unclaimBuildRequests (buildrequestid <$> buildrequests).

Definition _masterDeactivated (masterid : Z) (name : string) : M unit :=
  _masterDeactivatedHousekeeping masterid name >>
  produceEvent (mkMessage masterid name false) "stopped".

Definition masterActive (name : string) (masterid : Z) : M unit :=
  let* activated := setMasterState masterid true in
  if activated : bool
  then produceEvent (mkMessage masterid name true) "started"
  else ret tt.

Definition masterStopped (name : string) (masterid : Z) : M unit :=
  let* deactivated := setMasterState masterid false in
  if deactivated : bool
  then _masterDeactivated masterid name
  else ret tt.

(** The test that guards the [continue] of the scanner's loop:
    [m.last_active is not None and m.last_active >= too_old]. *)
Definition checked_in (too_old : Z) (m : Z * master_row) : bool :=
  match MasterModel.last_active m with
  | None => false
  | Some t => bool_decide (too_old <= t)
  end.

(** One turn of the loop of [expireMasters]. *)
Definition expire_master (forceHouseKeeping : bool) (too_old : Z)
  (m : Z * master_row) : M unit :=
  if checked_in too_old m then ret tt
  else
    let* deactivated := setMasterState (MasterModel.id m) false in
    if deactivated : bool
    then _masterDeactivated (MasterModel.id m) (MasterModel.name m)
    else if forceHouseKeeping
         then _masterDeactivatedHousekeeping (MasterModel.id m)
                (MasterModel.name m)
         else ret tt.

Definition expireMasters (forceHouseKeeping : bool) : M unit :=
  let* now := reactor_seconds in
  let too_old := epoch2datetime (now - 60 * EXPIRE_MINUTES) in
  let* masters := getMasters in
  for_each masters (expire_master forceHouseKeeping too_old).

(** ** A sample cluster *)

(** At time 660 the cutoff of the scanner is 60: master [A] checked in one
    second before it, master [B] exactly at it. *)
Definition sample_db : Db :=
  mkDb
    {[ 7 := MasterRow "A" true (Some 59); 8 := MasterRow "B" true (Some 60) ]}
    {[ 42 := BuildRow 7 false None; 43 := BuildRow 8 false None ]}
    {[ 100 := StepRow 42 None true; 101 := StepRow 43 None true ]}
    {[ 500 := LogRow 100 false; 501 := LogRow 101 false ]}
    {[ 9 := BuildRequestRow false (Some 7);
       10 := BuildRequestRow false (Some 8) ]}.

Definition sample_world : World := mkWorld sample_db 660 [] [].

(** The same cluster when master [A] was stopped a minute ago and its
    cascade was cut short, leaving its work behind. *)
Definition stopped_db : Db :=
  set_masters
    {[ 7 := MasterRow "A" false (Some 600); 8 := MasterRow "B" true (Some 600) ]}
    sample_db.

Definition stopped_world : World := mkWorld stopped_db 660 [] [].


(** * Reasoning about runs *)

(** ** Triples for code that may raise *)

Definition hoare {A} (P : World -> Prop) (m : M A)
  (Q : A -> World -> Prop) (E : exn -> World -> Prop) : Prop :=
  forall w, P w ->
    match m w with
    | (Ok a, w') => Q a w'
    | (Raise e, w') => E e w'
    end.

Lemma hoare_ret {A} (a : A) (P : World -> Prop) Q E :
  (forall w, P w -> Q a w) -> hoare P (ret a) Q E.
Proof. intros H w Hw. simpl. auto. Qed.

Lemma hoare_bind {A B} (m : M A) (k : A -> M B) P R Q E :
  hoare P m R E ->
  (forall a, hoare (R a) (k a) Q E) ->
  hoare P (bind m k) Q E.
Proof.
  intros Hm Hk w Hw. unfold bind. specialize (Hm w Hw).
  destruct (m w) as [[a|e] w1]; [|done].
  apply (Hk a w1 Hm).
Qed.

Lemma hoare_conseq {A} (m : M A) (P P' : World -> Prop)
  (Q Q' : A -> World -> Prop) (E E' : exn -> World -> Prop) :
  hoare P' m Q' E' ->
  (forall w, P w -> P' w) ->
  (forall a w, Q' a w -> Q a w) ->
  (forall e w, E' e w -> E e w) ->
  hoare P m Q E.
Proof.
  intros Hm HP HQ HE w Hw. specialize (Hm w (HP w Hw)).
  destruct (m w) as [[a|e] w1]; auto.
Qed.

Lemma hoare_for_each {A} (body : A -> M unit) (I : list A -> World -> Prop)
  (E : exn -> World -> Prop) :
  (forall x rest, hoare (I (x :: rest)) (body x) (fun _ => I rest) E) ->
  forall l, hoare (I l) (for_each l body) (fun _ => I []) E.
Proof.
  intros Hbody l. induction l as [|x rest IH]; simpl.
  - apply hoare_ret. auto.
  - eapply hoare_bind; [apply Hbody|]. intros ?. apply IH.
Qed.

Lemma hoare_run {A} (m : M A) P Q E w r w' :
  hoare P m Q E -> P w -> m w = (r, w') ->
  match r with Ok a => Q a w' | Raise e => E e w' end.
Proof. intros H Hw Hrun. specialize (H w Hw). by rewrite Hrun in H. Qed.

(** ** How a run extends the history *)

Lemma replay_app now d calls1 calls2 :
  replay now d (calls1 ++ calls2) = replay now (replay now d calls1) calls2.
Proof. unfold replay. apply foldl_app. Qed.

(** [extends S w w']: the world [w'] comes from [w] by calls that all
    satisfy [S], each applied to the store, and by consuming outcomes. *)
Definition extends (S : Call -> Prop) (w w' : World) : Prop :=
  exists calls,
    Forall S calls /\
    trace w' = trace w ++ calls /\
    db w' = replay (seconds w) (db w) calls /\
    seconds w' = seconds w /\
    exists n, faults w' = drop n (faults w).

Lemma extends_refl S w : extends S w w.
Proof.
  exists []. split_and!; [constructor|by rewrite app_nil_r|done|done|].
  by exists 0%nat.
Qed.

Lemma extends_trans S w1 w2 w3 :
  extends S w1 w2 -> extends S w2 w3 -> extends S w1 w3.
Proof.
  intros (c1 & HS1 & Ht1 & Hd1 & Hs1 & n1 & Hf1)
         (c2 & HS2 & Ht2 & Hd2 & Hs2 & n2 & Hf2).
  exists (c1 ++ c2). split_and!.
  - by apply Forall_app.
  - by rewrite Ht2, Ht1, app_assoc.
  - by rewrite Hd2, Hd1, Hs1, replay_app.
  - congruence.
  - exists (n1 + n2)%nat. by rewrite Hf2, Hf1, drop_drop.
Qed.

Lemma extends_mono (S S' : Call -> Prop) w w' :
  (forall c, S c -> S' c) -> extends S w w' -> extends S' w w'.
Proof.
  intros HSS (calls & HS & H). exists calls. split; [|done].
  eapply Forall_impl; eauto.
Qed.

Lemma extends_consume S w : extends S w (consume w).
Proof.
  exists []. split_and!; [constructor|by rewrite app_nil_r|done|done|].
  exists 1%nat. simpl. by destruct (faults w).
Qed.

Lemma extends_perform (S : Call -> Prop) c w :
  S c -> extends S w (perform c w).2.
Proof.
  intros Hc. exists [c]. split_and!; [by repeat constructor|done|done|done|].
  by exists 0%nat.
Qed.

(** [calls_in S m]: whatever its outcome, a run of [m] makes only calls that
    satisfy [S]. *)
Definition calls_in {A} (S : Call -> Prop) (m : M A) : Prop :=
  forall w, extends S w (m w).2.

Lemma calls_in_ret {A} S (a : A) : calls_in S (ret a).
Proof. intros w. apply extends_refl. Qed.

Lemma calls_in_bind {A B} S (m : M A) (k : A -> M B) :
  calls_in S m -> (forall a, calls_in S (k a)) -> calls_in S (bind m k).
Proof.
  intros Hm Hk w. unfold bind. specialize (Hm w).
  destruct (m w) as [[a|e] w1]; simpl in *; [|done].
  eapply extends_trans; [done|apply Hk].
Qed.

Lemma calls_in_for_each {A} S (l : list A) (body : A -> M unit) :
  (forall x, calls_in S (body x)) -> calls_in S (for_each l body).
Proof.
  intros Hbody. induction l as [|x rest IH]; simpl.
  - apply calls_in_ret.
  - apply calls_in_bind; auto.
Qed.

Lemma calls_in_external_call S e : calls_in S (external_call e).
Proof. intros w. apply extends_consume. Qed.

Lemma calls_in_perform (S : Call -> Prop) c : S c -> calls_in S (perform c).
Proof. intros Hc w. by apply extends_perform. Qed.

Lemma calls_in_read_db S : calls_in S read_db.
Proof. intros w. apply extends_refl. Qed.

Lemma calls_in_reactor_seconds S : calls_in S reactor_seconds.
Proof. intros w. apply extends_refl. Qed.

Lemma calls_in_mono {A} (S S' : Call -> Prop) (m : M A) :
  (forall c, S c -> S' c) -> calls_in S m -> calls_in S' m.
Proof. intros HSS Hm w. eapply extends_mono; eauto. Qed.

Create HintDb calls discriminated.

#[export] Hint Resolve calls_in_ret calls_in_external_call calls_in_read_db
  calls_in_reactor_seconds : calls.

Ltac calls_in :=
  repeat first
    [ apply calls_in_bind; [|intros ?]
    | apply calls_in_for_each; intros ?
    | apply calls_in_perform
    | solve [auto with calls]
    | solve [simpl; done] ].

(** The calls of the loops of the cascade. *)
Definition stops_steps (c : Call) : Prop :=
  match c with
  | CallFinishLog _ => True
  | CallFinishStep _ results hidden => results = RETRY /\ hidden = false
  | _ => False
  end.

Definition stops_builds (c : Call) : Prop :=
  match c with
  | CallFinishLog _ => True
  | CallFinishStep _ results hidden => results = RETRY /\ hidden = false
  | CallFinishBuild _ results => results = RETRY
  | _ => False
  end.

(** The calls of the housekeeping once it has logged its message: the
    notifications, the three kinds of finalization and the bulk release. *)
Definition cascade_call (c : Call) : Prop :=
  match c with
  | CallMasterDeactivated _ _ | CallFinishLog _
  | CallUnclaimBuildRequests _ => True
  | CallFinishStep _ results hidden => results = RETRY /\ hidden = false
  | CallFinishBuild _ results => results = RETRY
  | CallLogMsg _ _ | CallSetMasterState _ _ _ | CallProduceEvent _ _ => False
  end.

Lemma stop_step_calls step : calls_in stops_steps (stop_step step).
Proof.
  unfold stop_step, get_logs, finishLog, finishStep. calls_in; done.
Qed.

Lemma stop_build_calls build : calls_in stops_builds (stop_build build).
Proof.
  unfold stop_build, get_steps, finishBuild. calls_in; done.
Qed.

(** ** What is still open in the store *)

Definition open_build (masterid : Z) (d : Db) (k : Z) : Prop :=
  exists r, builds d !! k = Some r /\
    build_masterid r = masterid /\ build_complete r = false.

Definition open_step (buildid : Z) (d : Db) (k : Z) : Prop :=
  exists r, steps d !! k = Some r /\
    step_buildid r = buildid /\ step_results r = None.

Definition open_log (stepid : Z) (d : Db) (k : Z) : Prop :=
  exists r, logs d !! k = Some r /\
    log_stepid r = stepid /\ log_complete r = false.

Definition claimed_open (masterid : Z) (d : Db) (k : Z) : Prop :=
  exists r, buildrequests d !! k = Some r /\
    br_complete r = false /\ br_claimed r = Some masterid.

Lemma unclaim_all_lookup brids (t : gmap Z buildrequest_row) k :
  unclaim_all brids t !! k =
  if decide (k ∈ brids) then unclaim <$> t !! k else t !! k.
Proof.
  induction brids as [|b brids IH].
  - change (unclaim_all [] t) with t.
    case_decide as Hin; [|done]. by apply not_elem_of_nil in Hin.
  - change (unclaim_all (b :: brids) t)
      with (alter unclaim b (unclaim_all brids t)).
    rewrite lookup_alter. destruct (decide (b = k)) as [->|Hne]; rewrite IH.
    + rewrite (decide_True _ _ (list_elem_of_here k brids)).
      case_decide; [|done]. by destruct (t !! k).
    + destruct (decide (k ∈ brids)) as [Hin|Hin].
      * by rewrite (decide_True _ _ (list_elem_of_further k b brids Hin)).
      * rewrite decide_False; [done|].
        intros [?|?]%elem_of_cons; congruence.
Qed.

(** No call reopens anything: what is open after a call was open before. *)
Lemma open_build_apply_call now c masterid d k :
  open_build masterid (apply_call now c d) k -> open_build masterid d k.
Proof.
  unfold open_build. destruct c; simpl; try done.
  intros (r & Hr & Hm & Hc). apply lookup_alter_Some in Hr.
  destruct Hr as [(-> & r0 & Hr0 & ->)|[_ Hr]]; [done|].
  by exists r.
Qed.

Lemma open_step_apply_call now c buildid d k :
  open_step buildid (apply_call now c d) k -> open_step buildid d k.
Proof.
  unfold open_step. destruct c; simpl; try done.
  intros (r & Hr & Hm & Hc). apply lookup_alter_Some in Hr.
  destruct Hr as [(-> & r0 & Hr0 & ->)|[_ Hr]]; [done|].
  by exists r.
Qed.

Lemma open_log_apply_call now c stepid d k :
  open_log stepid (apply_call now c d) k -> open_log stepid d k.
Proof.
  unfold open_log. destruct c; simpl; try done.
  intros (r & Hr & Hm & Hc). apply lookup_alter_Some in Hr.
  destruct Hr as [(-> & r0 & Hr0 & ->)|[_ Hr]]; [done|].
  by exists r.
Qed.

Lemma open_build_replay now calls masterid d k :
  open_build masterid (replay now d calls) k -> open_build masterid d k.
Proof.
  revert d. induction calls as [|c calls IH]; intros d; simpl; [done|].
  intros H. eapply open_build_apply_call, IH, H.
Qed.

(** A finalization closes what it names. *)
Lemma open_build_finished now b results masterid d k :
  open_build masterid (apply_call now (CallFinishBuild b results) d) k ->
  open_build masterid d k /\ k <> b.
Proof.
  intros H. split; [by eapply open_build_apply_call|].
  intros ->. destruct H as (r & Hr & _ & Hc). simpl in Hr.
  rewrite lookup_alter_eq in Hr. by destruct (builds d !! b); simplify_eq/=.
Qed.

Lemma open_step_finished now s results hidden buildid d k :
  open_step buildid (apply_call now (CallFinishStep s results hidden) d) k ->
  open_step buildid d k /\ k <> s.
Proof.
  intros H. split; [by eapply open_step_apply_call|].
  intros ->. destruct H as (r & Hr & _ & Hc). simpl in Hr.
  rewrite lookup_alter_eq in Hr. by destruct (steps d !! s); simplify_eq/=.
Qed.

Lemma open_log_finished now l stepid d k :
  open_log stepid (apply_call now (CallFinishLog l) d) k ->
  open_log stepid d k /\ k <> l.
Proof.
  intros H. split; [by eapply open_log_apply_call|].
  intros ->. destruct H as (r & Hr & _ & Hc). simpl in Hr.
  rewrite lookup_alter_eq in Hr. by destruct (logs d !! l); simplify_eq/=.
Qed.

(** What the queries return. *)
Lemma elem_of_open_builds masterid d k :
  k ∈ buildid <$> map_to_list
        (filter (fun b : Z * build_row =>
                   build_masterid b.2 = masterid /\ build_complete b.2 = false)
                (builds d)) <->
  open_build masterid d k.
Proof.
  rewrite list_elem_of_fmap. split.
  - intros ([k' r] & -> & Hin). apply elem_of_map_to_list in Hin.
    apply map_lookup_filter_Some in Hin as [Hr [? ?]]. by exists r.
  - intros (r & Hr & ? & ?). exists (k, r). split; [done|].
    apply elem_of_map_to_list. by apply map_lookup_filter_Some.
Qed.

Lemma elem_of_open_steps buildid d k :
  k ∈ stepid <$> map_to_list
        (filter (fun s : Z * step_row =>
                   step_buildid s.2 = buildid /\ step_results s.2 = None)
                (steps d)) <->
  open_step buildid d k.
Proof.
  rewrite list_elem_of_fmap. split.
  - intros ([k' r] & -> & Hin). apply elem_of_map_to_list in Hin.
    apply map_lookup_filter_Some in Hin as [Hr [? ?]]. by exists r.
  - intros (r & Hr & ? & ?). exists (k, r). split; [done|].
    apply elem_of_map_to_list. by apply map_lookup_filter_Some.
Qed.

Lemma elem_of_open_logs stepid d k :
  k ∈ logid <$> map_to_list
        (filter (fun l : Z * log_row =>
                   log_stepid l.2 = stepid /\ log_complete l.2 = false)
                (logs d)) <->
  open_log stepid d k.
Proof.
  rewrite list_elem_of_fmap. split.
  - intros ([k' r] & -> & Hin). apply elem_of_map_to_list in Hin.
    apply map_lookup_filter_Some in Hin as [Hr [? ?]]. by exists r.
  - intros (r & Hr & ? & ?). exists (k, r). split; [done|].
    apply elem_of_map_to_list. by apply map_lookup_filter_Some.
Qed.

Lemma elem_of_claimed_open masterid d k :
  k ∈ buildrequestid <$> map_to_list
        (filter (fun br : Z * buildrequest_row =>
                   br_complete br.2 = false /\ br_claimed br.2 = Some masterid)
                (buildrequests d)) <->
  claimed_open masterid d k.
Proof.
  rewrite list_elem_of_fmap. split.
  - intros ([k' r] & -> & Hin). apply elem_of_map_to_list in Hin.
    apply map_lookup_filter_Some in Hin as [Hr [? ?]]. by exists r.
  - intros (r & Hr & ? & ?). exists (k, r). split; [done|].
    apply elem_of_map_to_list. by apply map_lookup_filter_Some.
Qed.

(** ** Triples for the primitive operations *)

Lemma hoare_any {A} (m : M A) (P : World -> Prop) :
  hoare P m (fun _ _ => True) (fun _ _ => True).
Proof. intros w _. by destruct (m w) as [[a|e] w']. Qed.

Lemma hoare_external_call e (P : World -> Prop) Q (E : exn -> World -> Prop) :
  (forall w, P w -> fails w = true -> E e (consume w)) ->
  (forall w, P w -> fails w = false -> Q tt (consume w)) ->
  hoare P (external_call e) Q E.
Proof.
  intros HE HQ w Hw. unfold external_call.
  destruct (fails w) eqn:Hf; auto.
Qed.

Lemma hoare_perform c (P : World -> Prop) Q E :
  (forall w, P w -> Q tt (perform c w).2) -> hoare P (perform c) Q E.
Proof. intros HQ w Hw. apply (HQ w Hw). Qed.

Lemma hoare_store_op c (P : World -> Prop) Q (E : exn -> World -> Prop) :
  (forall w, P w -> E StoreFailure (consume w)) ->
  (forall w, P w -> Q tt (perform c (consume w)).2) ->
  hoare P (external_call StoreFailure >> perform c) Q E.
Proof.
  intros HE HQ w Hw. unfold bind, external_call.
  destruct (fails w); simpl; [by apply HE|by apply HQ].
Qed.

Lemma hoare_query {A} (f : Db -> A) (P : World -> Prop) Q
  (E : exn -> World -> Prop) :
  (forall w, P w -> E StoreFailure (consume w)) ->
  (forall w, P w -> Q (f (db w)) (consume w)) ->
  hoare P (external_call StoreFailure >> let* d := read_db in ret (f d)) Q E.
Proof.
  intros HE HQ w Hw. unfold bind, external_call.
  destruct (fails w); simpl; [by apply HE|by apply HQ].
Qed.

(** A property of the world that no call of [S] breaks survives any code
    that makes only calls of [S]. *)
Lemma hoare_stable {A} (S : Call -> Prop) (m : M A) (F : World -> Prop)
  (E : exn -> World -> Prop) :
  calls_in S m ->
  (forall w w', extends S w w' -> F w -> F w') ->
  (forall e w, F w -> E e w) ->
  hoare F m (fun _ => F) E.
Proof.
  intros Hm HF HE w Hw. specialize (Hm w).
  destruct (m w) as [[a|e] w']; simpl in *; eauto.
Qed.

Lemma query_calls {A} S (f : Db -> A) :
  calls_in S (external_call StoreFailure >> let* d := read_db in ret (f d)).
Proof. calls_in. Qed.

Lemma store_op_calls (S : Call -> Prop) c :
  S c -> calls_in S (external_call StoreFailure >> perform c).
Proof. intros Hc. calls_in. Qed.

(** ** The builds of the master are all closed *)

Definition builds_left (masterid : Z) (l : list (Z * build_row)) (w : World)
  : Prop :=
  forall k, open_build masterid (db w) k -> k ∈ buildid <$> l.

Lemma builds_left_stable S masterid l w w' :
  extends S w w' -> builds_left masterid l w -> builds_left masterid l w'.
Proof.
  intros (calls & _ & _ & Hdb & _) H k Hk. apply H.
  rewrite Hdb in Hk. by eapply open_build_replay.
Qed.

Lemma stop_build_closes masterid build rest :
  hoare (builds_left masterid (build :: rest)) (stop_build build)
    (fun _ => builds_left masterid rest) (fun _ _ => True).
Proof.
  unfold stop_build. eapply hoare_bind.
  { apply (hoare_stable (fun _ => True)); [apply query_calls| |done].
    apply builds_left_stable. }
  intros steps. eapply hoare_bind.
  { apply (hoare_stable stops_steps); [|apply builds_left_stable|done].
    apply calls_in_for_each, stop_step_calls. }
  intros ?. apply hoare_store_op; [done|].
  intros w Hw k Hk.
  apply (open_build_finished (seconds w)) in Hk as [Hk Hne].
  apply Hw in Hk. rewrite fmap_cons in Hk.
  apply elem_of_cons in Hk as [?|?]; [done|done].
Qed.

Lemma housekeeping_closes_builds masterid name :
  hoare (fun _ => True) (_masterDeactivatedHousekeeping masterid name)
    (fun _ w => forall k, ~ open_build masterid (db w) k) (fun _ _ => True).
Proof.
  unfold _masterDeactivatedHousekeeping.
  do 5 (eapply hoare_bind; [apply hoare_any|]; intros ?).
  eapply hoare_bind.
  { apply hoare_query with
      (Q := fun l w => builds_left masterid l w); [done|].
    intros w _ k Hk. by apply elem_of_open_builds. }
  intros builds. eapply hoare_bind.
  { apply (hoare_for_each stop_build (builds_left masterid)).
    apply stop_build_closes. }
  intros ?.
  eapply hoare_conseq with
    (Q' := fun _ => builds_left masterid []) (E' := fun _ _ => True).
  - apply (hoare_stable (fun _ => True)); [|apply builds_left_stable|done].
    unfold getBuildRequests, unclaimBuildRequests. calls_in.
  - done.
  - intros _ w Hw k Hk. apply Hw in Hk. by apply elem_of_nil in Hk.
  - done.
Qed.

(** ** The calls of the housekeeping *)

Lemma bind_perform {B} c (k : unit -> M B) w :
  bind (perform c) k w = k tt (perform c w).2.
Proof. done. Qed.

(** The calls made before the bulk release. *)
Definition notifies_or_stops (c : Call) : Prop :=
  match c with
  | CallMasterDeactivated _ _ | CallFinishLog _ => True
  | CallFinishStep _ results hidden => results = RETRY /\ hidden = false
  | CallFinishBuild _ results => results = RETRY
  | _ => False
  end.

Lemma notifies_or_stops_cascade c : notifies_or_stops c -> cascade_call c.
Proof. by destruct c. Qed.

Lemma rtype_masterDeactivated_calls rtype masterid :
  calls_in notifies_or_stops (rtype_masterDeactivated rtype masterid).
Proof. unfold rtype_masterDeactivated. calls_in. Qed.

Lemma stop_builds_calls (builds : list (Z * build_row)) :
  calls_in notifies_or_stops (for_each builds stop_build).
Proof.
  apply calls_in_for_each. intros build.
  eapply calls_in_mono; [|apply stop_build_calls]. by intros [].
Qed.

Lemma housekeeping_extends masterid name w :
  extends cascade_call (perform (CallLogMsg masterid name) w).2
    (_masterDeactivatedHousekeeping masterid name w).2.
Proof.
  unfold _masterDeactivatedHousekeeping, log_msg. rewrite bind_perform.
  generalize ((perform (CallLogMsg masterid name) w).2). intros w1.
  revert w1. change (calls_in cascade_call
    (rtype_masterDeactivated "worker" masterid >>
     rtype_masterDeactivated "builder" masterid >>
     rtype_masterDeactivated "scheduler" masterid >>
     rtype_masterDeactivated "changesource" masterid >>
     let* builds := get_builds masterid false in
     for_each builds stop_build >>
     let* buildrequests := getBuildRequests false masterid in
     unclaimBuildRequests (buildrequestid <$> buildrequests))).
  repeat (apply calls_in_bind;
    [eapply calls_in_mono;
       [apply notifies_or_stops_cascade|apply rtype_masterDeactivated_calls]
    |intros ?]).
  apply calls_in_bind; [apply query_calls|intros builds].
  apply calls_in_bind.
  { eapply calls_in_mono;
      [apply notifies_or_stops_cascade|apply stop_builds_calls]. }
  intros ?. apply calls_in_bind; [apply query_calls|intros brs].
  by apply store_op_calls.
Qed.

(** ** Tables that a run leaves alone *)

Definition keeps_masters (c : Call) : Prop :=
  match c with
  | CallSetMasterState _ _ _ => False
  | _ => True
  end.

Definition keeps_claims (c : Call) : Prop :=
  match c with
  | CallUnclaimBuildRequests _ => False
  | _ => True
  end.

Lemma replay_masters now d calls :
  Forall keeps_masters calls -> masters (replay now d calls) = masters d.
Proof.
  revert d. induction calls as [|c calls IH]; intros d Hcalls; [done|].
  apply Forall_cons in Hcalls as [Hc Hcalls]. simpl.
  rewrite (IH _ Hcalls). by destruct c.
Qed.

Lemma replay_buildrequests now d calls :
  Forall keeps_claims calls ->
  buildrequests (replay now d calls) = buildrequests d.
Proof.
  revert d. induction calls as [|c calls IH]; intros d Hcalls; [done|].
  apply Forall_cons in Hcalls as [Hc Hcalls]. simpl.
  rewrite (IH _ Hcalls). by destruct c.
Qed.

(** A build row is either as it was or finished with [RETRY]. *)
Lemma replay_builds_lookup now d calls k r :
  Forall cascade_call calls ->
  builds d !! k = Some r ->
  builds (replay now d calls) !! k = Some r \/
  builds (replay now d calls) !! k = Some (finish_build RETRY r).
Proof.
  revert d r. induction calls as [|c calls IH]; intros d r Hcalls Hr;
    [by left|].
  apply Forall_cons in Hcalls as [Hc Hcalls]. simpl.
  destruct c; simpl in *; try (by apply IH).
  destruct (decide (buildid0 = k)) as [->|Hne].
  - right. subst results.
    destruct (IH (set_builds (alter (finish_build RETRY) k (builds d)) d)
                (finish_build RETRY r) Hcalls) as [H|H];
      [simpl; by rewrite lookup_alter_eq, Hr|done..].
  - apply IH; [done|]. simpl. by rewrite lookup_alter_ne.
Qed.

(** ** The bulk release *)

Definition claimed_by (masterid : Z) (d : Db) : list Z :=
  buildrequestid <$> map_to_list
    (filter (fun br : Z * buildrequest_row =>
               br_complete br.2 = false /\ br_claimed br.2 = Some masterid)
            (buildrequests d)).

Lemma hoare_extends {A} (S : Call -> Prop) w0 (m : M A)
  (E : exn -> World -> Prop) :
  calls_in S m ->
  (forall e w, extends S w0 w -> E e w) ->
  hoare (extends S w0) m (fun _ => extends S w0) E.
Proof.
  intros Hm HE. apply (hoare_stable S); [done| |done].
  intros w w' H1 H2. by eapply extends_trans.
Qed.

Lemma housekeeping_releases masterid name w w' :
  _masterDeactivatedHousekeeping masterid name w = (Ok tt, w') ->
  buildrequests (db w') =
    unclaim_all (claimed_by masterid (db w)) (buildrequests (db w)) /\
  exists calls,
    Forall notifies_or_stops calls /\
    trace w' = trace w ++ CallLogMsg masterid name :: calls ++
                 [CallUnclaimBuildRequests (claimed_by masterid (db w))].
Proof.
  unfold _masterDeactivatedHousekeeping, log_msg. rewrite bind_perform.
  set (wl := (perform (CallLogMsg masterid name) w).2). intros Hrun.
  eapply (hoare_run _ (extends notifies_or_stops wl)
            (fun _ w' => exists w1, extends notifies_or_stops wl w1 /\
               w' = (perform (CallUnclaimBuildRequests
                               (claimed_by masterid (db w1))) w1).2)
            (fun _ _ => True)) in Hrun; [| |apply extends_refl].
  - destruct Hrun as (w1 & (calls & Hcalls & Ht & Hdb & Hs & _) & ->).
    assert (buildrequests (db w1) = buildrequests (db w)) as Hbr.
    { rewrite Hdb. apply replay_buildrequests.
      eapply Forall_impl; [done|]. by intros []. }
    assert (claimed_by masterid (db w1) = claimed_by masterid (db w)) as Hc.
    { unfold claimed_by. by rewrite Hbr. }
    simpl. rewrite Hc, Hbr. split; [done|].
    exists calls. split; [done|].
    rewrite Ht. simpl. by rewrite <- !app_assoc.
  - do 4 (eapply hoare_bind;
      [apply hoare_extends; [apply rtype_masterDeactivated_calls|done]|];
      intros ?).
    eapply hoare_bind;
      [apply hoare_extends; [apply query_calls|done]|]; intros builds.
    eapply hoare_bind;
      [apply hoare_extends; [apply stop_builds_calls|done]|]; intros ?.
    eapply hoare_bind.
    { apply hoare_query with
        (Q := fun brs w1 => extends notifies_or_stops wl w1 /\
                brs = map_to_list
                  (filter (fun br : Z * buildrequest_row =>
                     br_complete br.2 = false /\
                     br_claimed br.2 = Some masterid)
                     (buildrequests (db w1)))); [done|].
      intros w1 Hw1. split; [|done].
      eapply extends_trans; [done|apply extends_consume]. }
    intros brs. apply hoare_store_op; [done|].
    intros w1 [Hw1 ->]. exists (consume w1). split; [|done].
    eapply extends_trans; [done|apply extends_consume].
Qed.

Lemma no_open_builds_query masterid d :
  (forall k, ~ open_build masterid d k) ->
  map_to_list
    (filter (fun b : Z * build_row =>
               build_masterid b.2 = masterid /\ build_complete b.2 = false)
            (builds d)) = [].
Proof.
  intros Hnone.
  destruct (map_to_list _) as [|[k r] l] eqn:Hl; [done|].
  destruct (Hnone k). apply elem_of_open_builds. rewrite Hl.
  rewrite fmap_cons. apply list_elem_of_here.
Qed.

Lemma no_claimed_open_query masterid d :
  (forall k, ~ claimed_open masterid d k) ->
  map_to_list
    (filter (fun br : Z * buildrequest_row =>
               br_complete br.2 = false /\ br_claimed br.2 = Some masterid)
            (buildrequests d)) = [].
Proof.
  intros Hnone.
  destruct (map_to_list _) as [|[k r] l] eqn:Hl; [done|].
  destruct (Hnone k). apply elem_of_claimed_open. rewrite Hl.
  rewrite fmap_cons. apply list_elem_of_here.
Qed.

Lemma released_not_claimed masterid d k :
  ~ claimed_open masterid
      (set_buildrequests
         (unclaim_all (claimed_by masterid d) (buildrequests d)) d) k.
Proof.
  intros (r & Hr & Hc & Hm). simpl in Hr. rewrite unclaim_all_lookup in Hr.
  case_decide as Hin.
  - destruct (buildrequests d !! k); simplify_eq/=.
  - apply Hin, elem_of_claimed_open. by exists r.
Qed.

(** ** Calls that leave the store as it is *)

Definition quiet (c : Call) : Prop :=
  match c with
  | CallLogMsg _ _ | CallMasterDeactivated _ _ => True
  | CallUnclaimBuildRequests brids => brids = []
  | _ => False
  end.

Lemma replay_quiet now d calls : Forall quiet calls -> replay now d calls = d.
Proof.
  revert d. induction calls as [|c calls IH]; intros d Hcalls; [done|].
  apply Forall_cons in Hcalls as [Hc Hcalls]. simpl.
  rewrite (IH _ Hcalls). destruct c; try done.
  simpl in Hc. subst brids. by destruct d.
Qed.

Lemma extends_quiet w w' : extends quiet w w' -> db w' = db w.
Proof. intros (calls & Hcalls & _ & -> & _). by apply replay_quiet. Qed.

Lemma housekeeping_again masterid name w :
  (forall k, ~ open_build masterid (db w) k) ->
  (forall k, ~ claimed_open masterid (db w) k) ->
  extends quiet w (_masterDeactivatedHousekeeping masterid name w).2.
Proof.
  intros Hbuilds Hclaims.
  assert (hoare (extends quiet w)
            (_masterDeactivatedHousekeeping masterid name)
            (fun _ => extends quiet w) (fun _ => extends quiet w)) as H.
  { unfold _masterDeactivatedHousekeeping.
    do 5 (eapply hoare_bind;
      [apply hoare_extends;
         [unfold log_msg, rtype_masterDeactivated; calls_in|done]|];
      intros ?).
    eapply hoare_bind.
    { apply hoare_query with
        (Q := fun l w1 => extends quiet w w1 /\ l = []).
      - intros w1 Hw1.
        eapply extends_trans; [done|apply extends_consume].
      - intros w1 Hw1. split.
        + eapply extends_trans; [done|apply extends_consume].
        + apply no_open_builds_query.
          by rewrite (extends_quiet _ _ Hw1). }
    intros builds.
    eapply hoare_bind with (R := fun _ w1 => extends quiet w w1).
    { intros w1 [Hw1 ->]. exact Hw1. }
    intros ?. eapply hoare_bind.
    { apply hoare_query with
        (Q := fun l w1 => extends quiet w w1 /\ l = []).
      - intros w1 Hw1.
        eapply extends_trans; [done|apply extends_consume].
      - intros w1 Hw1. split.
        + eapply extends_trans; [done|apply extends_consume].
        + apply no_claimed_open_query.
          by rewrite (extends_quiet _ _ Hw1). }
    intros brs. apply hoare_store_op.
    - intros w1 [Hw1 _].
      eapply extends_trans; [done|apply extends_consume].
    - intros w1 [Hw1 ->].
      eapply extends_trans; [done|].
      eapply extends_trans; [apply extends_consume|].
      by apply extends_perform. }
  specialize (H w (extends_refl _ _)).
  by destruct (_masterDeactivatedHousekeeping masterid name w) as [[[]|e] w'].
Qed.

(** ** Without faults the cascade completes *)

Definition fault_free (w : World) : Prop := faults w = [].

Lemma fault_free_external_call e (E : exn -> World -> Prop) :
  hoare fault_free (external_call e) (fun _ => fault_free) E.
Proof.
  intros w Hw. unfold external_call, fails, consume, fault_free in *.
  rewrite Hw. done.
Qed.

Lemma fault_free_perform c (E : exn -> World -> Prop) :
  hoare fault_free (perform c) (fun _ => fault_free) E.
Proof. by intros w Hw. Qed.

Lemma fault_free_read_db (E : exn -> World -> Prop) :
  hoare fault_free read_db (fun _ => fault_free) E.
Proof. by intros w Hw. Qed.

Ltac fault_free :=
  repeat first
    [ apply fault_free_external_call
    | apply fault_free_perform
    | apply fault_free_read_db
    | apply hoare_ret; intros ? ?; assumption
    | apply (hoare_for_each _ (fun _ => fault_free)); intros ? ?
    | apply hoare_bind with (R := fun _ => fault_free); [|intros ?] ].

Lemma housekeeping_total masterid name :
  hoare fault_free (_masterDeactivatedHousekeeping masterid name)
    (fun _ => fault_free) (fun _ _ => False).
Proof.
  unfold _masterDeactivatedHousekeeping, log_msg, rtype_masterDeactivated,
    get_builds, getBuildRequests, unclaimBuildRequests.
  fault_free.
Qed.

(** ** Logs before their step, steps before their build *)

(** A call is in order when, at the moment it is made, a step that is being
    finished has no open log left and a build that is being finished has no
    open step left, both with the [RETRY] result. *)
Definition in_order (d : Db) (c : Call) : Prop :=
  match c with
  | CallFinishStep stepid results hidden =>
      results = RETRY /\ hidden = false /\ forall k, ~ open_log stepid d k
  | CallFinishBuild buildid results =>
      results = RETRY /\ forall k, ~ open_step buildid d k
  | _ => True
  end.

(** A history is ordered from a store when each of its calls is in order in
    the store reached by the calls before it. *)
Fixpoint ordered (now : Z) (d : Db) (calls : list Call) : Prop :=
  match calls with
  | [] => True
  | c :: rest => in_order d c /\ ordered now (apply_call now c d) rest
  end.

Lemma ordered_app now d calls1 calls2 :
  ordered now d (calls1 ++ calls2) <->
  ordered now d calls1 /\ ordered now (replay now d calls1) calls2.
Proof.
  revert d. induction calls1 as [|c calls1 IH]; intros d; simpl.
  - tauto.
  - rewrite IH. tauto.
Qed.

Definition in_sequence (w0 w : World) : Prop :=
  exists calls,
    trace w = trace w0 ++ calls /\
    db w = replay (seconds w0) (db w0) calls /\
    seconds w = seconds w0 /\
    ordered (seconds w0) (db w0) calls.

Lemma in_sequence_refl w : in_sequence w w.
Proof. exists []. by rewrite app_nil_r. Qed.

Lemma in_sequence_perform w0 w c :
  in_sequence w0 w -> in_order (db w) c -> in_sequence w0 (perform c w).2.
Proof.
  intros (calls & Ht & Hd & Hs & Ho) Hc. exists (calls ++ [c]). simpl.
  split_and!.
  - by rewrite Ht, app_assoc.
  - by rewrite replay_app, <- Hd, Hs.
  - done.
  - apply ordered_app. split; [done|]. simpl. by rewrite <- Hd.
Qed.

Definition steps_left (buildid : Z) (l : list (Z * step_row)) (w : World)
  : Prop :=
  forall k, open_step buildid (db w) k -> k ∈ stepid <$> l.

Definition logs_left (stepid : Z) (l : list (Z * log_row)) (w : World)
  : Prop :=
  forall k, open_log stepid (db w) k -> k ∈ logid <$> l.

Lemma steps_left_perform buildid l c w :
  steps_left buildid l w -> steps_left buildid l (perform c w).2.
Proof.
  intros H k Hk. apply H.
  by apply (open_step_apply_call (seconds w) c).
Qed.

Lemma finish_log_in_order w0 buildid steps stepid _log rest :
  hoare
    (fun w => in_sequence w0 w /\ steps_left buildid steps w /\
              logs_left stepid (_log :: rest) w)
    (finishLog (logid _log))
    (fun _ w => in_sequence w0 w /\ steps_left buildid steps w /\
                logs_left stepid rest w)
    (fun _ => in_sequence w0).
Proof.
  apply hoare_store_op.
  - by intros w (Hs & _ & _).
  - intros w (Hs & Hsteps & Hlogs). split_and!.
    + by apply in_sequence_perform.
    + by apply steps_left_perform.
    + intros k Hk.
      apply (open_log_finished (seconds w)) in Hk as [Hk Hne].
      apply Hlogs in Hk. rewrite fmap_cons in Hk.
      by apply elem_of_cons in Hk as [?|?].
Qed.

Lemma stop_step_in_order w0 buildid step rest :
  hoare
    (fun w => in_sequence w0 w /\ steps_left buildid (step :: rest) w)
    (stop_step step)
    (fun _ w => in_sequence w0 w /\ steps_left buildid rest w)
    (fun _ => in_sequence w0).
Proof.
  unfold stop_step. eapply hoare_bind.
  { apply hoare_query with
      (Q := fun logs w => in_sequence w0 w /\
              steps_left buildid (step :: rest) w /\
              logs_left (stepid step) logs w).
    - by intros w [Hs _].
    - intros w [Hs Hsteps]. split_and!; [done..|].
      intros k Hk. by apply elem_of_open_logs. }
  intros logs. eapply hoare_bind.
  { apply (hoare_for_each _
             (fun l w => in_sequence w0 w /\
                steps_left buildid (step :: rest) w /\
                logs_left (stepid step) l w)).
    intros _log rest'. apply finish_log_in_order. }
  intros ?. apply hoare_store_op.
  - by intros w (Hs & _ & _).
  - intros w (Hs & Hsteps & Hlogs). split.
    + apply in_sequence_perform; [done|]. simpl. split_and!; [done..|].
      intros k Hk. apply Hlogs in Hk. by apply elem_of_nil in Hk.
    + intros k Hk.
      apply (open_step_finished (seconds w)) in Hk as [Hk Hne].
      apply Hsteps in Hk. rewrite fmap_cons in Hk.
      by apply elem_of_cons in Hk as [?|?].
Qed.

Lemma stop_build_in_order w0 build :
  hoare (in_sequence w0) (stop_build build)
    (fun _ => in_sequence w0) (fun _ => in_sequence w0).
Proof.
  unfold stop_build. eapply hoare_bind.
  { apply hoare_query with
      (Q := fun steps w => in_sequence w0 w /\
              steps_left (buildid build) steps w).
    - done.
    - intros w Hs. split; [done|].
      intros k Hk. by apply elem_of_open_steps. }
  intros steps. eapply hoare_bind.
  { apply (hoare_for_each _
             (fun l w => in_sequence w0 w /\
                steps_left (buildid build) l w)).
    intros step rest. apply stop_step_in_order. }
  intros ?. apply hoare_store_op.
  - by intros w [Hs _].
  - intros w [Hs Hsteps]. apply in_sequence_perform; [done|].
    simpl. split; [done|].
    intros k Hk. apply Hsteps in Hk. by apply elem_of_nil in Hk.
Qed.

Lemma hoare_in_sequence_perform w0 c :
  (forall d, in_order d c) ->
  hoare (in_sequence w0) (perform c)
    (fun _ => in_sequence w0) (fun _ => in_sequence w0).
Proof. intros Hc. apply hoare_perform. intros w Hw. by apply in_sequence_perform. Qed.

Lemma hoare_in_sequence_external_call w0 e :
  hoare (in_sequence w0) (external_call e)
    (fun _ => in_sequence w0) (fun _ => in_sequence w0).
Proof. by apply hoare_external_call. Qed.

Lemma housekeeping_in_order w0 masterid name :
  hoare (in_sequence w0) (_masterDeactivatedHousekeeping masterid name)
    (fun _ => in_sequence w0) (fun _ => in_sequence w0).
Proof.
  unfold _masterDeactivatedHousekeeping, log_msg, rtype_masterDeactivated.
  eapply hoare_bind; [by apply hoare_in_sequence_perform|intros ?].
  do 4 (eapply hoare_bind;
    [eapply hoare_bind;
       [by apply hoare_in_sequence_perform
       |intros ?; apply hoare_in_sequence_external_call]
    |intros ?]).
  apply hoare_bind with (R := fun _ => in_sequence w0);
    [by apply hoare_query|intros builds].
  eapply hoare_bind.
  { apply (hoare_for_each _ (fun _ => in_sequence w0)).
    intros build rest. apply stop_build_in_order. }
  intros ?. apply hoare_bind with (R := fun _ => in_sequence w0);
    [by apply hoare_query|intros brs].
  apply hoare_store_op; [done|].
  intros w Hw. by apply in_sequence_perform.
Qed.

(** What was open and is no longer open was closed by a call of the
    history. *)
Lemma closed_build_call now calls masterid d b :
  open_build masterid d b ->
  ~ open_build masterid (replay now d calls) b ->
  exists calls1 results calls2,
    calls = calls1 ++ CallFinishBuild b results :: calls2.
Proof.
  revert d. induction calls as [|c calls IH]; intros d Hopen Hclosed;
    [done|].
  assert ((exists results, c = CallFinishBuild b results) \/
          open_build masterid (apply_call now c d) b) as [[results ->]|Hc].
  { destruct Hopen as (r & Hr & Hm & Hcomplete).
    destruct c; try (right; by exists r).
    destruct (decide (buildid0 = b)) as [->|Hne]; [left; by eexists|].
    right. exists r. simpl. by rewrite lookup_alter_ne. }
  - by exists [], results, calls.
  - destruct (IH _ Hc Hclosed) as (calls1 & results & calls2 & ->).
    by exists (c :: calls1), results, calls2.
Qed.

Lemma closed_step_call now calls buildid d s :
  open_step buildid d s ->
  ~ open_step buildid (replay now d calls) s ->
  exists calls1 results hidden calls2,
    calls = calls1 ++ CallFinishStep s results hidden :: calls2.
Proof.
  revert d. induction calls as [|c calls IH]; intros d Hopen Hclosed;
    [done|].
  assert ((exists results hidden, c = CallFinishStep s results hidden) \/
          open_step buildid (apply_call now c d) s)
    as [(results & hidden & ->)|Hc].
  { destruct Hopen as (r & Hr & Hm & Hcomplete).
    destruct c; try (right; by exists r).
    destruct (decide (stepid0 = s)) as [->|Hne]; [left; by do 2 eexists|].
    right. exists r. simpl. by rewrite lookup_alter_ne. }
  - by exists [], results, hidden, calls.
  - destruct (IH _ Hc Hclosed) as (calls1 & results & hidden & calls2 & ->).
    by exists (c :: calls1), results, hidden, calls2.
Qed.

Lemma closed_log_call now calls stepid d l :
  open_log stepid d l ->
  ~ open_log stepid (replay now d calls) l ->
  CallFinishLog l ∈ calls.
Proof.
  revert d. induction calls as [|c calls IH]; intros d Hopen Hclosed;
    [done|].
  assert (c = CallFinishLog l \/ open_log stepid (apply_call now c d) l)
    as [->|Hc].
  { destruct Hopen as (r & Hr & Hm & Hcomplete).
    destruct c; try (right; by exists r).
    destruct (decide (logid0 = l)) as [->|Hne]; [by left|].
    right. exists r. simpl. by rewrite lookup_alter_ne. }
  - apply list_elem_of_here.
  - apply list_elem_of_further. by apply (IH _ Hc).
Qed.

(** Every open build of the master is finished by a call of the history,
    each of its open steps by an earlier call, and each of the open logs of
    such a step by a call earlier still. *)
Definition finalized_in_order (masterid : Z) (d : Db) (calls : list Call)
  : Prop :=
  forall b, open_build masterid d b ->
    exists calls1 calls2,
      calls = calls1 ++ CallFinishBuild b RETRY :: calls2 /\
      forall s, open_step b d s ->
        exists calls11 calls12,
          calls1 = calls11 ++ CallFinishStep s RETRY false :: calls12 /\
          forall l, open_log s d l -> CallFinishLog l ∈ calls11.

Lemma ordered_finalized now masterid d calls :
  ordered now d calls ->
  (forall b, ~ open_build masterid (replay now d calls) b) ->
  finalized_in_order masterid d calls.
Proof.
  intros Hord Hnone b Hb.
  destruct (closed_build_call now calls masterid d b Hb (Hnone b))
    as (calls1 & results & calls2 & ->).
  apply ordered_app in Hord as [Hord1 [[-> Hsteps] _]].
  exists calls1, calls2. split; [done|]. intros s Hs.
  destruct (closed_step_call now calls1 b d s Hs (Hsteps s))
    as (calls11 & results & hidden & calls12 & ->).
  apply ordered_app in Hord1 as [Hord11 [(-> & -> & Hlogs) _]].
  exists calls11, calls12. split; [done|]. intros l Hl.
  by apply (closed_log_call now calls11 s d l).
Qed.

(** * The deactivation cascade *)

(** C2: once the cascade for a master has completed, the store holds no
    build of that master that is incomplete, and every build of the master
    that was incomplete before the cascade is now finished with the [RETRY]
    result. *)
Theorem cascade_leaves_no_open_build masterid name w w' :
  _masterDeactivatedHousekeeping masterid name w = (Ok tt, w') ->
  (forall k r,
     builds (db w') !! k = Some r -> build_masterid r = masterid ->
     build_complete r = true) /\
  (forall k r,
     builds (db w) !! k = Some r -> build_masterid r = masterid ->
     build_complete r = false ->
     builds (db w') !! k = Some (finish_build RETRY r)).
Proof.
  intros Hrun.
  pose proof (hoare_run _ _ _ _ _ _ _
                (housekeeping_closes_builds masterid name) I Hrun) as Hnone.
  simpl in Hnone. split.
  - intros k r Hr Hm. destruct (build_complete r) eqn:Hc; [done|].
    destruct (Hnone k). by exists r.
  - intros k r Hr Hm Hc.
    destruct (housekeeping_extends masterid name w)
      as (calls & Hcalls & _ & Hdb & _).
    rewrite Hrun in Hdb. simpl in Hdb.
    destruct (replay_builds_lookup (seconds w) (db w) calls k r Hcalls Hr)
      as [H|H]; rewrite <- Hdb in H; [|done].
    destruct (Hnone k). by exists r.
Qed.

Lemma cascade_leaves_no_open_build_witness :
  _masterDeactivatedHousekeeping 7 "A" sample_world =
    (Ok tt, (_masterDeactivatedHousekeeping 7 "A" sample_world).2) /\
  builds (db (_masterDeactivatedHousekeeping 7 "A" sample_world).2) !! 42 =
    Some (finish_build RETRY (BuildRow 7 false None)).
Proof.
  assert (_masterDeactivatedHousekeeping 7 "A" sample_world =
            (Ok tt, (_masterDeactivatedHousekeeping 7 "A" sample_world).2))
    as H by (vm_compute; reflexivity).
  split; [exact H|].
  apply (proj2 (cascade_leaves_no_open_build 7 "A" sample_world _ H) 42
           (BuildRow 7 false None)); vm_compute; reflexivity.
Defined.

(** C3: within one invocation of the cascade, whatever its outcome, the
    history of calls replays to the store that is reached, and at each call
    that finishes a step (always with [RETRY] and [hidden = false]) no log of
    that step is open, and at each call that finishes a build (always with
    [RETRY]) no step of that build is open.  When the invocation completes,
    every incomplete build of the master is finished by a call, every open
    step of such a build by an earlier call, and every open log of such a
    step by a call earlier still. *)
Theorem cascade_finalizes_in_order masterid name w r w' :
  _masterDeactivatedHousekeeping masterid name w = (r, w') ->
  exists calls,
    trace w' = trace w ++ calls /\
    db w' = replay (seconds w) (db w) calls /\
    ordered (seconds w) (db w) calls /\
    (r = Ok tt -> finalized_in_order masterid (db w) calls).
Proof.
  intros Hrun.
  pose proof (hoare_run _ _ _ _ _ _ _
                (housekeeping_in_order w masterid name)
                (in_sequence_refl w) Hrun) as Hseq.
  assert (in_sequence w w') as (calls & Ht & Hdb & _ & Hord)
    by by destruct r.
  exists calls. split_and!; [done..|].
  intros ->. apply (ordered_finalized (seconds w)); [done|].
  rewrite <- Hdb.
  apply (hoare_run _ _ _ _ _ _ _
           (housekeeping_closes_builds masterid name) I Hrun).
Qed.

Lemma cascade_finalizes_in_order_witness :
  exists calls,
    trace (_masterDeactivatedHousekeeping 7 "A" sample_world).2 =
      trace sample_world ++ calls /\
    db (_masterDeactivatedHousekeeping 7 "A" sample_world).2 =
      replay 660 sample_db calls /\
    ordered 660 sample_db calls /\
    ((_masterDeactivatedHousekeeping 7 "A" sample_world).1 = Ok tt ->
     finalized_in_order 7 sample_db calls).
Proof.
  apply (cascade_finalizes_in_order 7 "A" sample_world).
  vm_compute; reflexivity.
Defined.

(** C7: once the cascade for a master has completed, every work request
    that was incomplete and claimed by that master has its claim cleared and
    is otherwise as before; every request claimed by another master, and more
    generally every request that was not an incomplete request of that
    master, is unchanged; and the history shows one single release, the last
    call of the cascade, which names exactly the requests found by the
    query. *)
Theorem cascade_releases_claims masterid name w w' :
  _masterDeactivatedHousekeeping masterid name w = (Ok tt, w') ->
  (forall k r,
     buildrequests (db w) !! k = Some r ->
     br_complete r = false -> br_claimed r = Some masterid ->
     buildrequests (db w') !! k = Some (unclaim r)) /\
  (forall k r other,
     buildrequests (db w) !! k = Some r ->
     br_claimed r = Some other -> other <> masterid ->
     buildrequests (db w') !! k = Some r) /\
  (forall k,
     ~ claimed_open masterid (db w) k ->
     buildrequests (db w') !! k = buildrequests (db w) !! k) /\
  exists calls,
    Forall keeps_claims calls /\
    trace w' = trace w ++ calls ++
                 [CallUnclaimBuildRequests (claimed_by masterid (db w))].
Proof.
  intros Hrun.
  destruct (housekeeping_releases masterid name w w' Hrun)
    as (Hbr & calls & Hcalls & Ht).
  assert (forall k,
            ~ claimed_open masterid (db w) k ->
            buildrequests (db w') !! k = buildrequests (db w) !! k) as Hframe.
  { intros k Hk. rewrite Hbr, unclaim_all_lookup.
    rewrite decide_False; [done|].
    intros Hin. by apply elem_of_claimed_open in Hin. }
  split_and!.
  - intros k r Hr Hc Hm. rewrite Hbr, unclaim_all_lookup.
    rewrite decide_True; [by rewrite Hr|].
    apply elem_of_claimed_open. by exists r.
  - intros k r other Hr Hm Hne. rewrite Hframe; [done|].
    intros (r' & Hr' & _ & Hm'). congruence.
  - done.
  - exists (CallLogMsg masterid name :: calls). split; [|done].
    constructor; [done|]. eapply Forall_impl; [done|]. by intros [].
Qed.

Lemma cascade_releases_claims_witness :
  _masterDeactivatedHousekeeping 7 "A" sample_world =
    (Ok tt, (_masterDeactivatedHousekeeping 7 "A" sample_world).2) /\
  buildrequests
    (db (_masterDeactivatedHousekeeping 7 "A" sample_world).2) !! 9 =
    Some (BuildRequestRow false None) /\
  buildrequests
    (db (_masterDeactivatedHousekeeping 7 "A" sample_world).2) !! 10 =
    Some (BuildRequestRow false (Some 8)).
Proof.
  assert (_masterDeactivatedHousekeeping 7 "A" sample_world =
            (Ok tt, (_masterDeactivatedHousekeeping 7 "A" sample_world).2))
    as H by (vm_compute; reflexivity).
  destruct (cascade_releases_claims 7 "A" sample_world _ H)
    as (Hmine & Hother & _).
  split_and!; [exact H| |].
  - apply (Hmine 9 (BuildRequestRow false (Some 7))); vm_compute; reflexivity.
  - apply (Hother 10 (BuildRequestRow false (Some 8)) 8);
      vm_compute; [reflexivity..|discriminate].
Defined.

(** C5: a second run of the cascade right after a completed first run, for
    the same master, leaves the store exactly as the first run left it,
    whatever the outcome of the second run: its queries find nothing, so its
    history holds no finalization of a log, a step or a build, and its only
    release is the one of the empty list of requests.  Without faults the
    second run completes. *)
Theorem cascade_idempotent masterid name w w1 :
  _masterDeactivatedHousekeeping masterid name w = (Ok tt, w1) ->
  db (_masterDeactivatedHousekeeping masterid name w1).2 = db w1 /\
  (exists calls,
     Forall quiet calls /\
     trace (_masterDeactivatedHousekeeping masterid name w1).2 =
       trace w1 ++ calls) /\
  (fault_free w1 ->
   (_masterDeactivatedHousekeeping masterid name w1).1 = Ok tt).
Proof.
  intros Hrun.
  assert (extends quiet w1
            (_masterDeactivatedHousekeeping masterid name w1).2) as Hext.
  { apply housekeeping_again.
    - apply (hoare_run _ _ _ _ _ _ _
               (housekeeping_closes_builds masterid name) I Hrun).
    - intros k.
      destruct (housekeeping_releases masterid name w w1 Hrun) as [Hbr _].
      intros (r & Hr & Hc & Hm).
      apply (released_not_claimed masterid (db w) k).
      exists r. simpl. by rewrite <- Hbr. }
  split_and!.
  - by apply extends_quiet.
  - destruct Hext as (calls & Hcalls & Ht & _). by exists calls.
  - intros Hfree.
    pose proof (housekeeping_total masterid name w1 Hfree) as Htotal.
    by destruct (_masterDeactivatedHousekeeping masterid name w1)
      as [[[]|e] w2].
Qed.

Lemma cascade_idempotent_witness :
  db (_masterDeactivatedHousekeeping 7 "A"
        (_masterDeactivatedHousekeeping 7 "A" sample_world).2).2 =
  db (_masterDeactivatedHousekeeping 7 "A" sample_world).2.
Proof.
  apply (cascade_idempotent 7 "A" sample_world).
  vm_compute; reflexivity.
Defined.

(** * The state transition and its events *)

Lemma setMasterState_run masterid active w :
  setMasterState masterid active w =
  if fails w then (Raise StoreFailure, consume w)
  else
    let changed :=
      match masters (db w) !! masterid with
      | None => false
      | Some row => negb (eqb (master_active row) active)
      end in
    (Ok changed,
     (perform (CallSetMasterState masterid active changed) (consume w)).2).
Proof.
  unfold setMasterState, bind, external_call. by destruct (fails w).
Qed.

(** The events produced in a history, the outcomes of its state transitions
    and the cascades it started. *)
Definition published (t : list Call) : list (Message * string) :=
  omap (fun c => match c with
                 | CallProduceEvent msg event => Some (msg, event)
                 | _ => None
                 end) t.

Definition changes (t : list Call) : list bool :=
  omap (fun c => match c with
                 | CallSetMasterState _ _ changed => Some changed
                 | _ => None
                 end) t.

Definition cascades (t : list Call) : list (Z * string) :=
  omap (fun c => match c with
                 | CallLogMsg masterid name => Some (masterid, name)
                 | _ => None
                 end) t.

Lemma published_cascade calls : Forall cascade_call calls -> published calls = [].
Proof.
  induction 1 as [|c calls Hc _ IH]; [done|]. by destruct c.
Qed.

Lemma published_app t1 t2 :
  published (t1 ++ t2) = published t1 ++ published t2.
Proof. apply omap_app. Qed.

Lemma changes_cascade calls : Forall cascade_call calls -> changes calls = [].
Proof.
  induction 1 as [|c calls Hc _ IH]; [done|]. by destruct c.
Qed.

Lemma cascades_cascade calls : Forall cascade_call calls -> cascades calls = [].
Proof.
  induction 1 as [|c calls Hc _ IH]; [done|]. by destruct c.
Qed.

(** The history of a cascade: its log message, then calls of the cascade. *)
Lemma housekeeping_history masterid name w :
  exists calls,
    Forall cascade_call calls /\
    trace (_masterDeactivatedHousekeeping masterid name w).2 =
      trace w ++ CallLogMsg masterid name :: calls /\
    masters (db (_masterDeactivatedHousekeeping masterid name w).2) =
      masters (db w).
Proof.
  destruct (housekeeping_extends masterid name w)
    as (calls & Hcalls & Ht & Hdb & _).
  exists calls. split_and!; [done| |].
  - rewrite Ht. simpl. by rewrite <- app_assoc.
  - rewrite Hdb. simpl. apply replay_masters.
    eapply Forall_impl; [done|]. by intros [].
Qed.

(** The history of a deactivation: the history of its cascade, followed by
    the event when the cascade completed. *)
Lemma masterDeactivated_run masterid name w :
  _masterDeactivated masterid name w =
  match _masterDeactivatedHousekeeping masterid name w with
  | (Ok _, w') =>
      (Ok tt,
       (perform (CallProduceEvent (mkMessage masterid name false) "stopped")
          w').2)
  | (Raise e, w') => (Raise e, w')
  end.
Proof.
  unfold _masterDeactivated, bind, produceEvent.
  by destruct (_masterDeactivatedHousekeeping masterid name w) as [[[]|e] w'].
Qed.

Lemma masterDeactivated_history masterid name w :
  exists calls,
    Forall cascade_call calls /\
    masters (db (_masterDeactivated masterid name w).2) = masters (db w) /\
    match (_masterDeactivated masterid name w).1 with
    | Ok _ =>
        trace (_masterDeactivated masterid name w).2 =
          trace w ++ CallLogMsg masterid name :: calls ++
            [CallProduceEvent (mkMessage masterid name false) "stopped"]
    | Raise _ =>
        trace (_masterDeactivated masterid name w).2 =
          trace w ++ CallLogMsg masterid name :: calls
    end.
Proof.
  destruct (housekeeping_history masterid name w) as (calls & Hcalls & Ht & Hm).
  exists calls. split; [done|]. rewrite masterDeactivated_run.
  destruct (_masterDeactivatedHousekeeping masterid name w) as [[[]|e] w'];
    simpl in *; split; try done.
  rewrite Ht. by rewrite <- app_assoc.
Qed.

Lemma masterStopped_run name masterid w :
  masterStopped name masterid w =
  if fails w then (Raise StoreFailure, consume w)
  else
    match masters (db w) !! masterid with
    | Some row =>
        if master_active row
        then _masterDeactivated masterid name
               (perform (CallSetMasterState masterid false true) (consume w)).2
        else (Ok tt,
              (perform (CallSetMasterState masterid false false)
                 (consume w)).2)
    | None =>
        (Ok tt,
         (perform (CallSetMasterState masterid false false) (consume w)).2)
    end.
Proof.
  unfold masterStopped, bind. rewrite setMasterState_run.
  destruct (fails w); [done|]. simpl.
  destruct (masters (db w) !! masterid) as [row|]; [|done].
  by destruct (master_active row).
Qed.

Lemma masterActive_run name masterid w :
  masterActive name masterid w =
  if fails w then (Raise StoreFailure, consume w)
  else
    match masters (db w) !! masterid with
    | Some row =>
        if master_active row
        then (Ok tt,
              (perform (CallSetMasterState masterid true false)
                 (consume w)).2)
        else (Ok tt,
              (perform (CallProduceEvent (mkMessage masterid name true)
                          "started")
                 (perform (CallSetMasterState masterid true true)
                    (consume w)).2).2)
    | None =>
        (Ok tt,
         (perform (CallSetMasterState masterid true false) (consume w)).2)
    end.
Proof.
  unfold masterActive, bind. rewrite setMasterState_run.
  destruct (fails w); [done|]. simpl.
  destruct (masters (db w) !! masterid) as [row|]; [|done].
  by destruct (master_active row).
Qed.




(** C4, as amended: a real deactivation produces exactly one event, named
    "stopped", with the message [{masterid, name, active: false}], as the
    last call of the run and after every call of the cascade, and it does so
    exactly when the cascade completed; when the cascade raises, the
    exception reaches the caller and no event is produced.  A real
    activation produces exactly one event, named "started", with the message
    [{masterid, name, active: true}].  A call that changes nothing produces
    no event. *)
Theorem state_change_events name masterid w row :
  masters (db w) !! masterid = Some row ->
  fails w = false ->
  (master_active row = true ->
   (masterStopped name masterid w).1 =
     (_masterDeactivatedHousekeeping masterid name
        (perform (CallSetMasterState masterid false true) (consume w)).2).1 /\
   match (masterStopped name masterid w).1 with
   | Ok _ =>
       (exists calls,
          Forall cascade_call calls /\
          trace (masterStopped name masterid w).2 =
            trace w ++ CallSetMasterState masterid false true ::
              CallLogMsg masterid name :: calls ++
              [CallProduceEvent (mkMessage masterid name false) "stopped"]) /\
       published (trace (masterStopped name masterid w).2) =
         published (trace w) ++ [(mkMessage masterid name false, "stopped")]
   | Raise _ =>
       published (trace (masterStopped name masterid w).2) =
         published (trace w)
   end) /\
  (master_active row = false ->
   (masterActive name masterid w).1 = Ok tt /\
   trace (masterActive name masterid w).2 =
     trace w ++ [CallSetMasterState masterid true true;
                 CallProduceEvent (mkMessage masterid name true) "started"]) /\
  (master_active row = false ->
   published (trace (masterStopped name masterid w).2) = published (trace w)) /\
  (master_active row = true ->
   published (trace (masterActive name masterid w).2) = published (trace w)).
Proof.
  intros Hrow Hfails. split_and!; intros Hactive.
  - rewrite (masterStopped_run name masterid w), Hfails, Hrow, Hactive.
    set (w1 := (perform (CallSetMasterState masterid false true)
                  (consume w)).2).
    destruct (masterDeactivated_history masterid name w1)
      as (calls & Hcalls & _ & Ht).
    split.
    { rewrite masterDeactivated_run.
      by destruct (_masterDeactivatedHousekeeping masterid name w1)
        as [[[]|e] w']. }
    destruct (_masterDeactivated masterid name w1).1.
    + assert (trace (_masterDeactivated masterid name w1).2 =
                trace w ++ CallSetMasterState masterid false true ::
                  CallLogMsg masterid name :: calls ++
                  [CallProduceEvent (mkMessage masterid name false)
                     "stopped"]) as Ht'.
      { rewrite Ht. simpl. by rewrite <- app_assoc. }
      split; [by exists calls|].
      rewrite Ht', published_app. f_equal.
      change (published (calls ++
                [CallProduceEvent (mkMessage masterid name false) "stopped"]) =
              [(mkMessage masterid name false, "stopped")]).
      by rewrite published_app, (published_cascade calls Hcalls).
    + rewrite Ht. simpl. rewrite <- app_assoc, published_app.
      change (published (trace w) ++ published calls = published (trace w)).
      rewrite (published_cascade calls Hcalls). apply app_nil_r.
  - rewrite (masterActive_run name masterid w), Hfails, Hrow, Hactive.
    simpl. by rewrite <- app_assoc.
  - rewrite (masterStopped_run name masterid w), Hfails, Hrow, Hactive.
    simpl. by rewrite published_app, app_nil_r.
  - rewrite (masterActive_run name masterid w), Hfails, Hrow, Hactive.
    simpl. by rewrite published_app, app_nil_r.
Qed.

Lemma state_change_events_witness :
  published (trace (masterStopped "A" 7 sample_world).2) =
    [(mkMessage 7 "A" false, "stopped")] /\
  trace (masterActive "A" 7 stopped_world).2 =
    [CallSetMasterState 7 true true;
     CallProduceEvent (mkMessage 7 "A" true) "started"].
Proof.
  split.
  - destruct (state_change_events "A" 7 sample_world
                (MasterRow "A" true (Some 59)))
      as ([_ H] & _); [vm_compute; reflexivity..|].
    assert ((masterStopped "A" 7 sample_world).1 = Ok tt) as Hok
      by (vm_compute; reflexivity).
    rewrite Hok in H. exact (proj2 H).
  - destruct (state_change_events "A" 7 stopped_world
                (MasterRow "A" false (Some 600)))
      as (_ & H & _); [vm_compute; reflexivity..|].
    apply H. reflexivity.
Defined.

(** C4 as stated fails on the name of the notification: a real deactivation
    that completes produces its one event under the name "stopped", and
    nothing is published under "deactivated". *)
Lemma state_change_events_counterexample :
  (masterStopped "A" 7 sample_world).1 = Ok tt /\
  published (trace (masterStopped "A" 7 sample_world).2) =
    [(mkMessage 7 "A" false, "stopped")] /\
  ~ exists msg,
      (msg, "deactivated") ∈
        published (trace (masterStopped "A" 7 sample_world).2).
Proof.
  assert (published (trace (masterStopped "A" 7 sample_world).2) =
            [(mkMessage 7 "A" false, "stopped")]) as H
    by (vm_compute; reflexivity).
  split_and!; [vm_compute; reflexivity|done|].
  rewrite H. intros [msg Hin]. apply list_elem_of_singleton in Hin.
  discriminate.
Qed.

(** * The observers *)

(** The resource types that are notified, in the order of the code. *)
Definition rtypes : list string :=
  ["worker"; "builder"; "scheduler"; "changesource"].

(** C8, as amended: the other resource types are notified in the fixed
    order worker, builder, scheduler, changesource; when the notification of
    one of them fails, the cascade stops there: the failure reaches the
    caller as an exception, nothing more is logged, the resource types after
    it are not notified, the store is left as it was (no build, step or log
    is finished and no request is released), and the deactivation produces
    no event. *)
Theorem observer_failure_aborts masterid name w n rtype fs :
  rtypes !! n = Some rtype ->
  faults w = replicate n false ++ true :: fs ->
  _masterDeactivatedHousekeeping masterid name w =
    (Raise (ObserverFailure rtype),
     mkWorld (db w) (seconds w) fs
       (trace w ++ CallLogMsg masterid name ::
          ((fun rtype => CallMasterDeactivated rtype masterid) <$>
             take (S n) rtypes))) /\
  _masterDeactivated masterid name w =
    _masterDeactivatedHousekeeping masterid name w.
Proof.
  intros Hn Hfaults.
  assert (_masterDeactivatedHousekeeping masterid name w =
            (Raise (ObserverFailure rtype),
             mkWorld (db w) (seconds w) fs
               (trace w ++ CallLogMsg masterid name ::
                  ((fun rtype => CallMasterDeactivated rtype masterid) <$>
                     take (S n) rtypes)))) as Hrun.
  { destruct w as [d now faults0 t]. simpl in *. subst faults0.
    destruct n as [|[|[|[|n]]]]; simplify_eq/=;
      unfold _masterDeactivatedHousekeeping, bind; simpl;
      by rewrite <- ?app_assoc. }
  split; [done|].
  rewrite masterDeactivated_run. by rewrite Hrun.
Qed.

Lemma observer_failure_aborts_witness :
  _masterDeactivatedHousekeeping 7 "A" (set_faults [false; true] sample_world) =
    (Raise (ObserverFailure "builder"),
     mkWorld sample_db 660 []
       [CallLogMsg 7 "A"; CallMasterDeactivated "worker" 7;
        CallMasterDeactivated "builder" 7]).
Proof.
  apply (observer_failure_aborts 7 "A" (set_faults [false; true] sample_world)
           1 "builder" []); reflexivity.
Defined.

(** C8 as stated fails: when the notification of the worker resource type
    fails, the builder, scheduler and changesource resource types are not
    notified, and the open build, step and log of the master and its claimed
    request stay as they were. *)
Lemma observer_failure_counterexample :
  (_masterDeactivatedHousekeeping 7 "A" (set_faults [true] sample_world)).1 =
    Raise (ObserverFailure "worker") /\
  trace (_masterDeactivatedHousekeeping 7 "A"
           (set_faults [true] sample_world)).2 =
    [CallLogMsg 7 "A"; CallMasterDeactivated "worker" 7] /\
  db (_masterDeactivatedHousekeeping 7 "A"
        (set_faults [true] sample_world)).2 = sample_db /\
  open_build 7 sample_db 42.
Proof.
  split_and!; [vm_compute; reflexivity..|].
  by exists (BuildRow 7 false None).
Qed.

(** * The liveness scanner *)

Lemma expireMasters_run forceHouseKeeping w :
  expireMasters forceHouseKeeping w =
  if fails w then (Raise StoreFailure, consume w)
  else
    for_each (map_to_list (masters (db w)))
      (expire_master forceHouseKeeping (seconds w - 60 * EXPIRE_MINUTES))
      (consume w).
Proof.
  unfold expireMasters, getMasters, bind, external_call, epoch2datetime.
  simpl. by destruct (fails w).
Qed.

(** One turn of the scanner for a master that has not checked in: the state
    transition, then the deactivation or, when forced, the housekeeping. *)
Definition deactivate_stale (forceHouseKeeping : bool) (masterid : Z)
  (name : string) : M unit :=
  let* deactivated := setMasterState masterid false in
  if deactivated : bool then _masterDeactivated masterid name
  else if forceHouseKeeping
       then _masterDeactivatedHousekeeping masterid name
       else ret tt.


(** The calls that are not a state transition of master [k]. *)
Definition other_master (k : Z) (c : Call) : Prop :=
  match c with
  | CallSetMasterState masterid _ _ => masterid <> k
  | _ => True
  end.

Lemma calls_in_for_each_elem {A} S (l : list A) (body : A -> M unit) :
  (forall x, x ∈ l -> calls_in S (body x)) -> calls_in S (for_each l body).
Proof.
  induction l as [|x rest IH]; intros Hbody; simpl.
  - apply calls_in_ret.
  - apply calls_in_bind.
    + apply Hbody, list_elem_of_here.
    + intros ?. apply IH. intros y Hy. by apply Hbody, list_elem_of_further.
Qed.

Lemma housekeeping_keeps_masters masterid name :
  calls_in keeps_masters (_masterDeactivatedHousekeeping masterid name).
Proof.
  intros w. eapply extends_trans.
  - apply (extends_perform keeps_masters (CallLogMsg masterid name)). done.
  - eapply extends_mono; [|apply housekeeping_extends]. by intros [].
Qed.

Lemma masterDeactivated_keeps_masters masterid name :
  calls_in keeps_masters (_masterDeactivated masterid name).
Proof.
  unfold _masterDeactivated, produceEvent.
  apply calls_in_bind; [apply housekeeping_keeps_masters|].
  intros ?. by apply calls_in_perform.
Qed.

Lemma deactivate_stale_calls (S : Call -> Prop) forceHouseKeeping masterid
  name :
  (forall changed, S (CallSetMasterState masterid false changed)) ->
  (forall c, keeps_masters c -> S c) ->
  calls_in S (deactivate_stale forceHouseKeeping masterid name).
Proof.
  intros Hset Hkeeps. unfold deactivate_stale, setMasterState.
  apply calls_in_bind; [calls_in|].
  intros [|].
  - eapply calls_in_mono; [done|apply masterDeactivated_keeps_masters].
  - destruct forceHouseKeeping; [|apply calls_in_ret].
    eapply calls_in_mono; [done|apply housekeeping_keeps_masters].
Qed.

Lemma expire_master_calls forceHouseKeeping too_old m k :
  checked_in too_old m = true \/ MasterModel.id m <> k ->
  calls_in (other_master k) (expire_master forceHouseKeeping too_old m).
Proof.
  intros Hm. unfold expire_master.
  destruct (checked_in too_old m); [apply calls_in_ret|].
  destruct Hm as [?|Hne]; [done|].
  apply (deactivate_stale_calls (other_master k)); [done|by intros []].
Qed.

Lemma expire_master_attempts forceHouseKeeping too_old m w w' :
  checked_in too_old m = false ->
  expire_master forceHouseKeeping too_old m w = (Ok tt, w') ->
  exists changed calls,
    trace w' =
      trace w ++ CallSetMasterState (MasterModel.id m) false changed :: calls.
Proof.
  intros Hm. unfold expire_master. rewrite Hm.
  unfold bind. rewrite setMasterState_run.
  destruct (fails w); [done|]. simpl.
  set (changed := match masters (db w) !! MasterModel.id m with
                  | Some row => negb (eqb (master_active row) false)
                  | None => false
                  end).
  set (w1 := mkWorld _ _ _ _). intros Hrun.
  assert (extends (fun _ => True) w1 w') as (calls & _ & Ht & _).
  { destruct changed.
    - pose proof (masterDeactivated_keeps_masters (MasterModel.id m)
                    (MasterModel.name m) w1) as H.
      rewrite Hrun in H. eapply extends_mono; [|exact H]. done.
    - destruct forceHouseKeeping.
      + pose proof (housekeeping_keeps_masters (MasterModel.id m)
                      (MasterModel.name m) w1) as H.
        rewrite Hrun in H. eapply extends_mono; [|exact H]. done.
      + injection Hrun as <-. apply extends_refl. }
  exists changed, calls. rewrite Ht. simpl. by rewrite <- app_assoc.
Qed.

Lemma expire_master_trace forceHouseKeeping too_old m w :
  exists calls,
    trace (expire_master forceHouseKeeping too_old m w).2 = trace w ++ calls.
Proof.
  assert (calls_in (fun _ => True)
            (expire_master forceHouseKeeping too_old m)) as H.
  { unfold expire_master. destruct (checked_in too_old m);
      [apply calls_in_ret|].
    by apply (deactivate_stale_calls (fun _ => True)). }
  destruct (H w) as (calls & _ & Ht & _). by exists calls.
Qed.

(** A scan that completes has attempted the state transition of every
    master that had not checked in. *)
Lemma scan_attempts forceHouseKeeping w k row :
  masters (db w) !! k = Some row ->
  checked_in (seconds w - 60 * EXPIRE_MINUTES) (k, row) = false ->
  (expireMasters forceHouseKeeping w).1 = Ok tt ->
  exists calls changed,
    trace (expireMasters forceHouseKeeping w).2 = trace w ++ calls /\
    CallSetMasterState k false changed ∈ calls.
Proof.
  intros Hrow Hstale. rewrite expireMasters_run.
  destruct (fails w); [done|].
  set (too_old := seconds w - 60 * EXPIRE_MINUTES) in *.
  set (attempted := fun (rest : list (Z * master_row)) (w1 : World) =>
         exists calls,
           trace w1 = trace w ++ calls /\
           ((k, row) ∈ rest \/
            exists changed, CallSetMasterState k false changed ∈ calls)).
  assert (hoare (attempted (map_to_list (masters (db w))))
            (for_each (map_to_list (masters (db w)))
               (expire_master forceHouseKeeping too_old))
            (fun _ => attempted []) (fun _ _ => True)) as Hloop.
  { apply (hoare_for_each _ attempted). intros m rest w1 (calls & Ht & Hk).
    destruct (expire_master forceHouseKeeping too_old m w1)
      as [[[]|e] w2] eqn:Hrun; [|done].
    destruct (expire_master_trace forceHouseKeeping too_old m w1)
      as (calls2 & Ht2). rewrite Hrun in Ht2. simpl in Ht2.
    exists (calls ++ calls2). split; [by rewrite Ht2, Ht, app_assoc|].
    destruct Hk as [Hk|[changed Hk]].
    - apply elem_of_cons in Hk as [<-|Hk]; [|by left].
      destruct (expire_master_attempts _ _ _ _ _ Hstale Hrun)
        as (changed & calls' & Ht').
      rewrite Ht2 in Ht'. apply app_inv_head in Ht'. subst calls2.
      right. exists changed. apply elem_of_app. right.
      apply list_elem_of_here.
    - right. exists changed. apply elem_of_app. by left. }
  specialize (Hloop (consume w)).
  destruct (for_each _ _ (consume w)) as [[[]|e] w'] eqn:Hrun; [|done].
  intros _. destruct Hloop as (calls & Ht & Hk).
  { exists []. split; [by rewrite app_nil_r|]. left.
    by apply elem_of_map_to_list. }
  destruct Hk as [Hk|[changed Hk]]; [by apply elem_of_nil in Hk|].
  by exists calls, changed.
Qed.

(** A scan attempts no state transition of a master that has checked in. *)
Lemma scan_skips forceHouseKeeping w k row :
  masters (db w) !! k = Some row ->
  checked_in (seconds w - 60 * EXPIRE_MINUTES) (k, row) = true ->
  exists calls,
    trace (expireMasters forceHouseKeeping w).2 = trace w ++ calls /\
    Forall (other_master k) calls.
Proof.
  intros Hrow Hfresh. rewrite expireMasters_run.
  destruct (fails w).
  { exists []. split; [by rewrite app_nil_r|constructor]. }
  assert (calls_in (other_master k)
            (for_each (map_to_list (masters (db w)))
               (expire_master forceHouseKeeping
                  (seconds w - 60 * EXPIRE_MINUTES)))) as H.
  { apply calls_in_for_each_elem. intros [k' row'] Hin.
    apply elem_of_map_to_list in Hin. apply expire_master_calls.
    destruct (decide (k' = k)) as [->|Hne]; [left|by right].
    by simplify_eq. }
  destruct (H (consume w)) as (calls & Hcalls & Ht & _). by exists calls.
Qed.

Lemma expire_master_stale forceHouseKeeping too_old m w :
  checked_in too_old m = false ->
  expire_master forceHouseKeeping too_old m w =
  match setMasterState (MasterModel.id m) false w with
  | (Ok true, w1) =>
      _masterDeactivated (MasterModel.id m) (MasterModel.name m) w1
  | (Ok false, w1) =>
      if forceHouseKeeping
      then _masterDeactivatedHousekeeping (MasterModel.id m)
             (MasterModel.name m) w1
      else (Ok tt, w1)
  | (Raise e, w1) => (Raise e, w1)
  end.
Proof.
  intros Hm. unfold expire_master, bind. rewrite Hm.
  destruct (setMasterState (MasterModel.id m) false w) as [[[]|e] w1];
    [done| |done].
  by destruct forceHouseKeeping.
Qed.








(** * The endpoints *)

(** The dictionary built by [_db2data]. *)
Record MasterData := mkMasterData {
  data_masterid : Z;
  data_name : string;
  data_active : bool;
  data_last_active : option Z
}.

Definition _db2data (model : Z * master_row) : MasterData :=
  mkMasterData (MasterModel.id model) (MasterModel.name model)
    (master_active model.2) (MasterModel.last_active model).

(** What the endpoints read of a builder: the ids of its masters. *)
Record BuilderModel := mkBuilderModel {
  builder_masterids : list Z
}.

(** The keyword arguments of [MasterEndpoint.get]: both path patterns,
    [/masters/n:masterid] and [/builders/n:builderid/masters/n:masterid],
    bind [masterid]; [builderid] is there for the second one only. *)
Record Kwargs := mkKwargs {
  kw_builderid : option Z;
  kw_masterid : Z
}.

Section Endpoints.

(** The table of builders behind [db.builders.getBuilder], which is not part
    of the sources at hand: the endpoints only look a builder up in it. *)
Variable builders : gmap Z BuilderModel.

Definition getBuilder (builderid : Z) : M (option BuilderModel) :=
  external_call StoreFailure >> ret (builders !! builderid).

(** Modelled from the spec: [db.masters.getMaster(masterid)] is not part of
    the sources at hand; section 6 gives it as [getMaster(id) ->
    MasterRecord|absent]. *)
Definition getMaster (masterid : Z) : M (option (Z * master_row)) :=
  external_call StoreFailure >>
  let* d := read_db in
  ret (pair masterid <$> masters d !! masterid).

(** The test [not builder or kwargs['masterid'] not in builder.masterids]. *)
Definition not_associated (builder : option BuilderModel) (masterid : Z)
  : bool :=
  match builder with
  | None => true
  | Some b => negb (bool_decide (masterid ∈ builder_masterids b))
  end.

(** [MasterEndpoint.get]; the result specification is not used by the
    code. *)
Definition MasterEndpoint_get (kwargs : Kwargs) : M (option MasterData) :=
  let get_master :=
    let* m := getMaster (kw_masterid kwargs) in
    ret (_db2data <$> m) in
  match kw_builderid kwargs with
  | Some builderid =>
      let* builder := getBuilder builderid in
      if not_associated builder (kw_masterid kwargs) then ret None
      else get_master
  | None => get_master
  end.

(** [MastersEndpoint.get]: of the keyword arguments only [builderid] can be
    there (path patterns [/masters] and [/builders/n:builderid/masters]). *)
Definition MastersEndpoint_get (builderid : option Z) : M (list MasterData) :=
  let* masterlist := getMasters in
  let* masterlist :=
    match builderid with
    | Some builderid =>
        let* builder := getBuilder builderid in
        ret (match builder with
             | Some b =>
                 filter (fun m => MasterModel.id m ∈ builder_masterids b)
                   masterlist
             | None => []
             end)
    | None => ret masterlist
    end in
  ret (_db2data <$> masterlist).

(** The builder named in a request, if any, exists and lists the master. *)
Definition associated (builderid : option Z) (masterid : Z) : Prop :=
  forall b, builderid = Some b ->
    exists builder,
      builders !! b = Some builder /\ masterid ∈ builder_masterids builder.

Lemma not_associated_false b masterid :
  not_associated (builders !! b) masterid = false <->
  associated (Some b) masterid.
Proof.
  unfold not_associated, associated. split.
  - intros H b' [= <-]. destruct (builders !! b) as [builder|]; [|done].
    exists builder. split; [done|].
    apply negb_false_iff in H. by apply bool_decide_eq_true in H.
  - intros H. destruct (H b eq_refl) as (builder & -> & Hin).
    apply negb_false_iff. by apply bool_decide_eq_true.
Qed.

Lemma MasterEndpoint_get_run kwargs w :
  MasterEndpoint_get kwargs w =
  let found w1 :=
    (if fails w1 then Raise StoreFailure
     else Ok (_db2data <$>
                (pair (kw_masterid kwargs) <$>
                   masters (db w1) !! kw_masterid kwargs)),
     consume w1) in
  match kw_builderid kwargs with
  | Some b =>
      if fails w then (Raise StoreFailure, consume w)
      else if not_associated (builders !! b) (kw_masterid kwargs)
           then (Ok None, consume w)
           else found (consume w)
  | None => found w
  end.
Proof.
  unfold MasterEndpoint_get, getMaster, getBuilder, bind, external_call.
  simpl. destruct (kw_builderid kwargs) as [b|].
  - destruct (fails w); [done|]. simpl.
    destruct (not_associated (builders !! b) (kw_masterid kwargs)); [done|].
    by destruct (fails (consume w)).
  - by destruct (fails w).
Qed.

Lemma MastersEndpoint_get_run builderid w :
  MastersEndpoint_get builderid w =
  if fails w then (Raise StoreFailure, consume w)
  else
    match builderid with
    | Some b =>
        if fails (consume w) then (Raise StoreFailure, consume (consume w))
        else
          (Ok (_db2data <$>
                 match builders !! b with
                 | Some builder =>
                     filter (fun m => MasterModel.id m ∈
                                        builder_masterids builder)
                       (map_to_list (masters (db w)))
                 | None => []
                 end),
           consume (consume w))
    | None => (Ok (_db2data <$> map_to_list (masters (db w))), consume w)
    end.
Proof.
  unfold MastersEndpoint_get, getMasters, getBuilder, bind, external_call.
  simpl. destruct (fails w); [done|]. simpl.
  destruct builderid as [b|]; [|done]. simpl.
  by destruct (fails (consume w)).
Qed.

(** X1: the two endpoints only read: whatever the outcome of a request, the
    store and the history of calls are as before. *)
Theorem endpoints_read_only kwargs builderid w :
  db (MasterEndpoint_get kwargs w).2 = db w /\
  trace (MasterEndpoint_get kwargs w).2 = trace w /\
  db (MastersEndpoint_get builderid w).2 = db w /\
  trace (MastersEndpoint_get builderid w).2 = trace w.
Proof.
  rewrite MasterEndpoint_get_run, MastersEndpoint_get_run. simpl.
  split_and!.
  - destruct (kw_builderid kwargs); [|done].
    destruct (fails w); [done|]. by destruct (not_associated _ _).
  - destruct (kw_builderid kwargs); [|done].
    destruct (fails w); [done|]. by destruct (not_associated _ _).
  - destruct (fails w); [done|]. destruct builderid; [|done].
    by destruct (fails (consume w)).
  - destruct (fails w); [done|]. destruct builderid; [|done].
    by destruct (fails (consume w)).
Qed.

(** X2: a request for one master that completes returns the data of a
    master exactly when the master is in the store and, if the request names
    a builder, that builder exists and lists the master; the data then
    carries the requested id and the name, state and last check-in of the
    stored row.  In every other case (unknown master, unknown builder, master
    not of that builder) it returns [None]. *)
Theorem MasterEndpoint_get_found kwargs w o :
  (MasterEndpoint_get kwargs w).1 = Ok o ->
  forall data,
    o = Some data <->
    associated (kw_builderid kwargs) (kw_masterid kwargs) /\
    exists row,
      masters (db w) !! kw_masterid kwargs = Some row /\
      data = mkMasterData (kw_masterid kwargs) (master_name row)
               (master_active row) (master_last_active row).
Proof.
  rewrite MasterEndpoint_get_run. simpl.
  destruct (kw_builderid kwargs) as [b|] eqn:Hb.
  - destruct (fails w); [done|].
    destruct (not_associated (builders !! b) (kw_masterid kwargs)) eqn:Hassoc.
    + simpl. intros [= <-] data. split; [done|].
      intros [Ha _]. apply not_associated_false in Ha. congruence.
    + apply not_associated_false in Hassoc. simpl.
      destruct (fails (consume w)); [done|]. intros [= <-] data.
      destruct (masters (db w) !! kw_masterid kwargs) as [row|]; simpl.
      * split.
        -- intros [= <-]. split; [done|]. by exists row.
        -- intros (_ & row' & [= <-] & ->). done.
      * split; [done|]. by intros (_ & row' & ? & _).
  - simpl. destruct (fails w); [done|]. intros [= <-] data.
    assert (associated None (kw_masterid kwargs)) as Ha by by intros b.
    destruct (masters (db w) !! kw_masterid kwargs) as [row|]; simpl.
    + split.
      * intros [= <-]. split; [done|]. by exists row.
      * intros (_ & row' & [= <-] & ->). done.
    + split; [done|]. by intros (_ & row' & ? & _).
Qed.

Lemma db2data_masterid (l : list (Z * master_row)) :
  data_masterid <$> (_db2data <$> l) = l.*1.
Proof. by rewrite <- list_fmap_compose. Qed.

Lemma elem_of_db2data data (l : list (Z * master_row)) :
  data ∈ _db2data <$> l <->
  exists row, (data_masterid data, row) ∈ l /\
    data = _db2data (data_masterid data, row).
Proof.
  rewrite list_elem_of_fmap. split.
  - intros ([k row] & -> & Hin). by exists row.
  - intros (row & Hin & Hd). by exists (data_masterid data, row).
Qed.

(** X3: the collection endpoint and the single endpoint agree.  Without
    faults, a master is listed by [MastersEndpoint.get] for a request (with
    or without a builder) exactly when [MasterEndpoint.get] for the same
    builder and the id of that master returns that very data. *)
Theorem endpoints_agree builderid w :
  fault_free w ->
  exists l,
    (MastersEndpoint_get builderid w).1 = Ok l /\
    forall data,
      data ∈ l <->
      (MasterEndpoint_get (mkKwargs builderid (data_masterid data)) w).1 =
        Ok (Some data).
Proof.
  intros Hfree. unfold fault_free in Hfree.
  assert (fails w = false) as Hf by (unfold fails; by rewrite Hfree).
  assert (fails (consume w) = false) as Hf'
    by (unfold fails, consume; simpl; by rewrite Hfree).
  rewrite MastersEndpoint_get_run, Hf.
  destruct builderid as [b|]; [rewrite Hf'|];
    (eexists; split; [reflexivity|]);
    intros data; rewrite MasterEndpoint_get_run; simpl.
  - rewrite Hf, Hf'. unfold not_associated.
    destruct (builders !! b) as [builder|]; simpl.
    + rewrite elem_of_db2data.
      destruct (bool_decide_reflect
                  (data_masterid data ∈ builder_masterids builder))
        as [Hin|Hin]; simpl.
      * split.
        -- intros (row & Hrow & Hd).
           apply list_elem_of_filter in Hrow as [_ Hrow].
           apply elem_of_map_to_list in Hrow. rewrite Hrow. simpl.
           by rewrite <- Hd.
        -- destruct (masters (db w) !! data_masterid data) as [row|] eqn:Hrow;
             [|done].
           simpl. intros [= Hd]. exists row. split; [|done].
           apply list_elem_of_filter. split; [done|].
           by apply elem_of_map_to_list.
      * split; [|done]. intros (row & Hrow & _).
        by apply list_elem_of_filter in Hrow as [? _].
    + split; [|done]. intros Hin. by apply elem_of_nil in Hin.
  - rewrite Hf. rewrite elem_of_db2data. split.
    + intros (row & Hrow & Hd). apply elem_of_map_to_list in Hrow.
      rewrite Hrow. simpl. by rewrite <- Hd.
    + destruct (masters (db w) !! data_masterid data) as [row|] eqn:Hrow;
        [|done].
      simpl. intros [= Hd]. exists row. split; [|done].
      by apply elem_of_map_to_list.
Qed.

(** X4: a listing that completes names each master at most once, with or
    without a builder, and a listing for a builder is drawn, in order, from
    the listing of all masters. *)
Theorem MastersEndpoint_get_no_duplicates builderid w l :
  (MastersEndpoint_get builderid w).1 = Ok l ->
  NoDup (data_masterid <$> l) /\
  exists all,
    (MastersEndpoint_get None w).1 = Ok all /\ l `sublist_of` all.
Proof.
  rewrite !MastersEndpoint_get_run. destruct (fails w); [done|].
  assert (NoDup (map_to_list (masters (db w))).*1) as Hnodup
    by apply NoDup_fst_map_to_list.
  assert (forall l0 : list (Z * master_row),
            l0 `sublist_of` map_to_list (masters (db w)) ->
            NoDup (data_masterid <$> (_db2data <$> l0)) /\
            exists all,
              Ok (_db2data <$> map_to_list (masters (db w))) = Ok all /\
              _db2data <$> l0 `sublist_of` all) as Hsub.
  { intros l0 Hl0. split.
    - rewrite db2data_masterid.
      eapply sublist_NoDup; [exact Hnodup|by apply fmap_sublist].
    - eexists. split; [done|]. by apply fmap_sublist. }
  destruct builderid as [b|]; simpl.
  - destruct (fails (consume w)); [done|]. simpl. intros [= <-].
    apply Hsub. destruct (builders !! b); [apply sublist_filter|].
    apply sublist_nil_l.
  - intros [= <-]. by apply Hsub.
Qed.

(** X5: what a state transition writes is what the endpoint then reads.
    Without faults, after [masterActive] for a master of the store the
    endpoint returns it as active with [last_active] set to the reading of
    the clock; after [masterStopped] it returns it as inactive with
    [last_active] as it was. *)
Theorem endpoint_after_transition name masterid w row :
  fault_free w ->
  masters (db w) !! masterid = Some row ->
  (MasterEndpoint_get (mkKwargs None masterid)
     (masterActive name masterid w).2).1 =
    Ok (Some (mkMasterData masterid (master_name row) true
                (Some (seconds w)))) /\
  (MasterEndpoint_get (mkKwargs None masterid)
     (masterStopped name masterid w).2).1 =
    Ok (Some (mkMasterData masterid (master_name row) false
                (master_last_active row))).
Proof.
  intros Hfree Hrow. unfold fault_free in Hfree.
  assert (fails w = false) as Hf by (unfold fails; by rewrite Hfree).
  split.
  - rewrite masterActive_run, Hf, Hrow, MasterEndpoint_get_run. simpl.
    assert (forall w1, faults w1 = faults w -> fails w1 = false) as Hf1.
    { intros w1 Hw1. unfold fails. by rewrite Hw1, Hfree. }
    destruct (master_active row); simpl;
      (rewrite Hf1 by (simpl; by rewrite Hfree)); simpl;
      by rewrite lookup_alter_eq, Hrow.
  - rewrite masterStopped_run, Hf, Hrow.
    destruct (master_active row) eqn:Hactive.
    + set (w1 := (perform (CallSetMasterState masterid false true)
                    (consume w)).2).
      assert (fault_free w1) as Hfree1
        by (unfold fault_free; simpl; by rewrite Hfree).
      destruct (masterDeactivated_history masterid name w1)
        as (calls & _ & Hm & _).
      assert (fault_free (_masterDeactivated masterid name w1).2) as Hfree2.
      { rewrite masterDeactivated_run.
        pose proof (housekeeping_total masterid name w1 Hfree1) as Ht.
        by destruct (_masterDeactivatedHousekeeping masterid name w1)
          as [[[]|e] w2]. }
      unfold fault_free in Hfree2.
      rewrite MasterEndpoint_get_run. cbn [kw_builderid kw_masterid].
      unfold fails. rewrite Hfree2, Hm. subst w1. simpl.
      by rewrite lookup_alter_eq, Hrow.
    + rewrite MasterEndpoint_get_run. simpl.
      unfold fails. simpl. rewrite Hfree. simpl.
      rewrite lookup_alter_eq, Hrow. simpl.
      unfold _db2data, MasterModel.id, MasterModel.name,
        MasterModel.last_active. simpl. by rewrite <- Hactive.
Qed.

End Endpoints.

(** * More on the scanner *)

Lemma for_each_skip {A} (l : list A) (body : A -> M unit) w :
  (forall x, x ∈ l -> body x w = (Ok tt, w)) ->
  for_each l body w = (Ok tt, w).
Proof.
  induction l as [|x rest IH]; intros Hbody; [done|].
  simpl. unfold bind. rewrite (Hbody x) by apply list_elem_of_here.
  apply IH. intros y Hy. by apply Hbody, list_elem_of_further.
Qed.

(** X6: a scan of a cluster in which every master checked in at the cutoff
    or later (in particular a scan of a cluster without masters) makes no
    call and changes nothing: it completes on the world that its one query
    leaves. *)
Theorem scan_of_fresh_cluster forceHouseKeeping w :
  fails w = false ->
  (forall k row,
     masters (db w) !! k = Some row ->
     exists t, master_last_active row = Some t /\ seconds w - 600 <= t) ->
  expireMasters forceHouseKeeping w = (Ok tt, consume w).
Proof.
  intros Hf Hfresh. rewrite expireMasters_run, Hf.
  apply for_each_skip. intros [k row] Hin.
  apply elem_of_map_to_list in Hin.
  destruct (Hfresh k row Hin) as (t & Ht & Hle).
  unfold expire_master, checked_in, MasterModel.last_active. simpl.
  rewrite Ht. by rewrite bool_decide_eq_true_2.
Qed.

Lemma scan_of_fresh_cluster_witness :
  expireMasters true stopped_world = (Ok tt, consume stopped_world).
Proof.
  apply scan_of_fresh_cluster; [reflexivity|].
  intros k row Hrow. exists 600.
  destruct (decide (k = 7)) as [->|?].
  { vm_compute in Hrow. injection Hrow as <-. split; [reflexivity|].
    vm_compute. discriminate. }
  destruct (decide (k = 8)) as [->|?].
  { vm_compute in Hrow. injection Hrow as <-. split; [reflexivity|].
    vm_compute. discriminate. }
  unfold stopped_world, stopped_db in Hrow. simpl in Hrow.
  rewrite lookup_insert_ne, lookup_singleton_ne in Hrow by done. done.
Defined.

(** The calls of a scan: state transitions to inactive, cascades, and
    events of deactivation. *)
Definition deactivates (c : Call) : Prop :=
  match c with
  | CallSetMasterState _ active _ => active = false
  | CallProduceEvent msg event => event = "stopped"%string /\ msg_active msg = false
  | _ => True
  end.

Lemma housekeeping_deactivates masterid name :
  calls_in deactivates (_masterDeactivatedHousekeeping masterid name).
Proof.
  intros w. eapply extends_trans.
  - apply (extends_perform deactivates (CallLogMsg masterid name)). done.
  - eapply extends_mono; [|apply housekeeping_extends]. by intros [].
Qed.

Lemma expire_master_deactivates forceHouseKeeping too_old m :
  calls_in deactivates (expire_master forceHouseKeeping too_old m).
Proof.
  unfold expire_master. destruct (checked_in too_old m);
    [apply calls_in_ret|].
  unfold setMasterState. apply calls_in_bind; [calls_in|].
  intros [|].
  - unfold _masterDeactivated, produceEvent.
    apply calls_in_bind; [apply housekeeping_deactivates|].
    intros ?. by apply calls_in_perform.
  - destruct forceHouseKeeping; [|apply calls_in_ret].
    apply housekeeping_deactivates.
Qed.

Lemma expireMasters_deactivates forceHouseKeeping :
  calls_in deactivates (expireMasters forceHouseKeeping).
Proof.
  unfold expireMasters, getMasters.
  apply calls_in_bind; [calls_in|]. intros now.
  apply calls_in_bind; [calls_in|]. intros masters.
  apply calls_in_for_each. intros m. apply expire_master_deactivates.
Qed.

Lemma set_state_false_twice now row :
  set_state false now (set_state false now row) = set_state false now row.
Proof. done. Qed.

Lemma replay_masters_other now d calls k :
  Forall (other_master k) calls ->
  masters (replay now d calls) !! k = masters d !! k.
Proof.
  revert d. induction calls as [|c calls IH]; intros d Hcalls; [done|].
  apply Forall_cons in Hcalls as [Hc Hcalls]. simpl.
  rewrite (IH _ Hcalls). destruct c; try done.
  simpl in *. by rewrite lookup_alter_ne.
Qed.

Lemma replay_masters_deactivates now d calls k row :
  Forall deactivates calls ->
  masters d !! k = Some row ->
  masters (replay now d calls) !! k = Some row \/
  masters (replay now d calls) !! k = Some (set_state false now row).
Proof.
  revert d row. induction calls as [|c calls IH]; intros d row Hcalls Hrow;
    [by left|].
  apply Forall_cons in Hcalls as [Hc Hcalls]. simpl.
  destruct c; try (by apply IH).
  simpl in Hc. subst active.
  destruct (decide (masterid = k)) as [->|Hne].
  - right.
    destruct (IH (apply_call now (CallSetMasterState k false changed) d)
                (set_state false now row) Hcalls) as [H|H];
      [simpl; by rewrite lookup_alter_eq, Hrow|done..].
  - apply IH; [done|]. simpl. by rewrite lookup_alter_ne.
Qed.

Lemma replay_masters_deactivated now d calls k row changed :
  Forall deactivates calls ->
  CallSetMasterState k false changed ∈ calls ->
  masters d !! k = Some row ->
  masters (replay now d calls) !! k = Some (set_state false now row).
Proof.
  revert d row. induction calls as [|c calls IH];
    intros d row Hcalls Hin Hrow; [by apply elem_of_nil in Hin|].
  apply Forall_cons in Hcalls as [Hc Hcalls].
  apply elem_of_cons in Hin as [<-|Hin].
  - simpl.
    destruct (replay_masters_deactivates now
                (apply_call now (CallSetMasterState k false changed) d)
                calls k (set_state false now row) Hcalls) as [H|H];
      [simpl; by rewrite lookup_alter_eq, Hrow|done..].
  - simpl. destruct c; try (by apply IH).
    simpl in Hc. subst active.
    destruct (decide (masterid = k)) as [->|Hne].
    + rewrite (IH _ (set_state false now row) Hcalls Hin); [done|].
      simpl. by rewrite lookup_alter_eq, Hrow.
    + apply IH; [done..|]. simpl. by rewrite lookup_alter_ne.
Qed.

(** X7: what a scan does to the table of masters.  Whatever its outcome, a
    scan never activates a master, never touches a name or a [last_active],
    and leaves every master that had checked in as it was; its only events
    are events of deactivation.  When it completes, every master that had
    not checked in is inactive. *)
Theorem scan_outcome forceHouseKeeping w k row :
  masters (db w) !! k = Some row ->
  (exists calls,
     trace (expireMasters forceHouseKeeping w).2 = trace w ++ calls /\
     Forall deactivates calls) /\
  (masters (db (expireMasters forceHouseKeeping w).2) !! k = Some row \/
   masters (db (expireMasters forceHouseKeeping w).2) !! k =
     Some (MasterRow (master_name row) false (master_last_active row))) /\
  (checked_in (seconds w - 600) (k, row) = true ->
   masters (db (expireMasters forceHouseKeeping w).2) !! k = Some row) /\
  (checked_in (seconds w - 600) (k, row) = false ->
   (expireMasters forceHouseKeeping w).1 = Ok tt ->
   masters (db (expireMasters forceHouseKeeping w).2) !! k =
     Some (MasterRow (master_name row) false (master_last_active row))).
Proof.
  intros Hrow.
  destruct (expireMasters_deactivates forceHouseKeeping w)
    as (calls & Hcalls & Ht & Hdb & _).
  split_and!.
  - by exists calls.
  - rewrite Hdb.
    by apply (replay_masters_deactivates (seconds w) (db w) calls k row).
  - intros Hfresh.
    destruct (scan_skips forceHouseKeeping w k row Hrow Hfresh)
      as (calls' & Ht' & Hcalls').
    rewrite Ht in Ht'. apply app_inv_head in Ht'. subst calls'.
    rewrite Hdb, replay_masters_other; done.
  - intros Hstale Hok.
    destruct (scan_attempts forceHouseKeeping w k row Hrow Hstale Hok)
      as (calls' & changed & Ht' & Hin).
    rewrite Ht in Ht'. apply app_inv_head in Ht'. subst calls'.
    rewrite Hdb.
    by apply (replay_masters_deactivated (seconds w) (db w) calls k row
                changed).
Qed.

Lemma scan_outcome_witness :
  masters (db (expireMasters false sample_world).2) !! 7 =
    Some (MasterRow "A" false (Some 59)) /\
  masters (db (expireMasters false sample_world).2) !! 8 =
    Some (MasterRow "B" true (Some 60)).
Proof.
  split.
  - destruct (scan_outcome false sample_world 7 (MasterRow "A" true (Some 59)))
      as (_ & _ & _ & H); [reflexivity|].
    apply H; vm_compute; reflexivity.
  - destruct (scan_outcome false sample_world 8 (MasterRow "B" true (Some 60)))
      as (_ & _ & H & _); [reflexivity|].
    apply H; vm_compute; reflexivity.
Defined.

(** The masters whose transition to inactive is followed by a cascade: those
    whose state changed and, when housekeeping is forced, the others too. *)
Definition transitions (forced : bool) (t : list Call) : list Z :=
  omap (fun c => match c with
                 | CallSetMasterState masterid active changed =>
                     if negb active && (changed || forced)
                     then Some masterid else None
                 | _ => None
                 end) t.

Lemma transitions_app forced t1 t2 :
  transitions forced (t1 ++ t2) = transitions forced t1 ++ transitions forced t2.
Proof. apply omap_app. Qed.

Lemma cascades_app t1 t2 : cascades (t1 ++ t2) = cascades t1 ++ cascades t2.
Proof. apply omap_app. Qed.

Lemma transitions_cascade forced calls :
  Forall cascade_call calls -> transitions forced calls = [].
Proof.
  induction 1 as [|c calls Hc _ IH]; [done|]. by destruct c.
Qed.

(** The history of a run, cut in two statements: one for every outcome, one
    for the runs that complete. *)
Definition history {A} (m : M A) (w : World) (always completed : list Call -> Prop)
  : Prop :=
  exists calls,
    trace (m w).2 = trace w ++ calls /\
    always calls /\
    (forall a, (m w).1 = Ok a -> completed calls).

Lemma for_each_history {A} (body : A -> M unit)
  (always completed : list Call -> Prop) :
  always [] -> completed [] ->
  (forall t1 t2, always t1 -> always t2 -> always (t1 ++ t2)) ->
  (forall t1 t2, completed t1 -> completed t2 -> completed (t1 ++ t2)) ->
  (forall x w, history (body x) w always completed) ->
  forall l w, history (for_each l body) w always completed.
Proof.
  intros Ha Hc Haa Hcc Hbody l. unfold history in *.
  induction l as [|x rest IH]; intros w.
  - exists []. simpl. by rewrite app_nil_r.
  - destruct (Hbody x w) as (t1 & Ht1 & Ha1 & Hc1).
    simpl. unfold bind.
    destruct (body x w) as [[[]|e] w1]; simpl in *.
    + destruct (IH w1) as (t2 & Ht2 & Ha2 & Hc2).
      exists (t1 ++ t2). split_and!.
      * by rewrite Ht2, Ht1, app_assoc.
      * by apply Haa.
      * intros a Hok. apply Hcc; [by apply (Hc1 tt)|by apply (Hc2 a)].
    + exists t1. split_and!; [done..|]. by intros a.
Qed.

Definition cascade_per_transition (forced : bool) (calls : list Call) : Prop :=
  (cascades calls).*1 = transitions forced calls.

Definition event_per_change (calls : list Call) : Prop :=
  (fun ev : Message * string => msg_masterid ev.1) <$> published calls =
  transitions false calls.

Lemma cascades_turn k name changed t :
  cascades (CallSetMasterState k false changed :: CallLogMsg k name :: t) =
  (k, name) :: cascades t.
Proof. done. Qed.

Lemma transitions_turn forced k name changed t :
  transitions forced
    (CallSetMasterState k false changed :: CallLogMsg k name :: t) =
  (if changed || forced then [k] else []) ++ transitions forced t.
Proof. unfold transitions. simpl. by destruct (changed || forced). Qed.

Lemma published_turn k name changed t :
  published (CallSetMasterState k false changed :: CallLogMsg k name :: t) =
  published t.
Proof. done. Qed.

Lemma expire_master_history forceHouseKeeping too_old m w :
  history (expire_master forceHouseKeeping too_old m) w
    (cascade_per_transition forceHouseKeeping) event_per_change.
Proof.
  unfold history, cascade_per_transition, event_per_change.
  destruct (checked_in too_old m) eqn:Hm.
  { unfold expire_master. rewrite Hm. exists []. simpl.
    by rewrite app_nil_r. }
  rewrite expire_master_stale by done. rewrite setMasterState_run.
  destruct (fails w).
  { exists []. simpl. by rewrite app_nil_r. }
  simpl.
  set (changed := match masters (db w) !! MasterModel.id m with
                  | Some row => negb (eqb (master_active row) false)
                  | None => false
                  end).
  set (k := MasterModel.id m). set (name := MasterModel.name m).
  set (w1 := mkWorld _ _ _ _).
  assert (trace w1 = trace w ++ [CallSetMasterState k false changed])
    as Hw1 by done.
  clearbody w1 changed.
  destruct changed.
  - destruct (masterDeactivated_history k name w1)
      as (calls & Hcalls & _ & Ht).
    destruct (_masterDeactivated k name w1) as [[[]|e] w2]; simpl in Ht.
    + exists (CallSetMasterState k false true :: CallLogMsg k name ::
              calls ++
              [CallProduceEvent (mkMessage k name false) "stopped"]).
      cbn [fst snd]. split_and!.
      * rewrite Ht, Hw1. by rewrite <- app_assoc.
      * rewrite cascades_turn, transitions_turn, cascades_app,
          transitions_app.
        by rewrite (cascades_cascade calls Hcalls),
          (transitions_cascade _ calls Hcalls).
      * intros ?.
        rewrite published_turn, transitions_turn, published_app,
          transitions_app.
        by rewrite (published_cascade calls Hcalls),
          (transitions_cascade _ calls Hcalls).
    + exists (CallSetMasterState k false true :: CallLogMsg k name :: calls).
      cbn [fst snd]. split_and!.
      * rewrite Ht, Hw1. by rewrite <- app_assoc.
      * rewrite cascades_turn, transitions_turn.
        by rewrite (cascades_cascade calls Hcalls),
          (transitions_cascade _ calls Hcalls).
      * by intros a.
  - destruct forceHouseKeeping.
    + destruct (housekeeping_history k name w1) as (calls & Hcalls & Ht & _).
      exists (CallSetMasterState k false false :: CallLogMsg k name :: calls).
      split_and!.
      * rewrite Ht, Hw1. by rewrite <- app_assoc.
      * rewrite cascades_turn, transitions_turn.
        by rewrite (cascades_cascade calls Hcalls),
          (transitions_cascade _ calls Hcalls).
      * intros ?. rewrite published_turn, transitions_turn.
        by rewrite (published_cascade calls Hcalls),
          (transitions_cascade _ calls Hcalls).
    + exists [CallSetMasterState k false false]. cbn [fst snd].
      split_and!; [by rewrite Hw1|done..].
Qed.

(** X8: in a scan every cascade belongs to a state transition made just
    before it, and every transition that calls for a cascade gets one: the
    masters of the cascades started, in order, are the masters whose state
    changed to inactive, together with, under forced housekeeping, the
    stale masters whose state did not change.  When the scan completes, the
    events produced are, in the same order, one per master whose state
    changed. *)
Theorem scan_cascades forceHouseKeeping w :
  exists calls,
    trace (expireMasters forceHouseKeeping w).2 = trace w ++ calls /\
    (cascades calls).*1 = transitions forceHouseKeeping calls /\
    ((expireMasters forceHouseKeeping w).1 = Ok tt ->
     (fun ev : Message * string => msg_masterid ev.1) <$> published calls =
     transitions false calls).
Proof.
  rewrite expireMasters_run. destruct (fails w).
  { exists []. simpl. by rewrite app_nil_r. }
  destruct (for_each_history
              (expire_master forceHouseKeeping
                 (seconds w - 60 * EXPIRE_MINUTES))
              (cascade_per_transition forceHouseKeeping) event_per_change)
    with (l := map_to_list (masters (db w))) (w := consume w)
    as (calls & Ht & Ha & Hc).
  - done.
  - done.
  - unfold cascade_per_transition. intros t1 t2 H1 H2.
    by rewrite cascades_app, transitions_app, fmap_app, H1, H2.
  - unfold event_per_change. intros t1 t2 H1 H2.
    by rewrite published_app, transitions_app, fmap_app, H1, H2.
  - intros m w1. apply expire_master_history.
  - exists calls. split_and!; [done..|]. intros Hok. by apply (Hc tt).
Qed.

(** * Heartbeats *)

(** The world some seconds later: only the clock has moved. *)
Definition later (dt : Z) (w : World) : World :=
  mkWorld (db w) (seconds w + dt) (faults w) (trace w).

Lemma masterActive_row name masterid w row :
  masters (db w) !! masterid = Some row ->
  fails w = false ->
  (masterActive name masterid w).1 = Ok tt /\
  masters (db (masterActive name masterid w).2) !! masterid =
    Some (MasterRow (master_name row) true (Some (seconds w))) /\
  seconds (masterActive name masterid w).2 = seconds w.
Proof.
  intros Hrow Hf. rewrite masterActive_run, Hf, Hrow.
  destruct (master_active row); simpl; by rewrite lookup_alter_eq, Hrow.
Qed.



(** * More on the state transitions *)

Lemma alter_missing {A} (f : A -> A) (t : gmap Z A) k :
  t !! k = None -> alter f k t = t.
Proof.
  intros Hk. apply map_eq. intros j. rewrite lookup_alter.
  case_decide; [|done]. subst. by rewrite Hk.
Qed.

(** X10: for a master id that is not in the store, [masterActive] and
    [masterStopped] go through without effect: the store is left as it was,
    the transition reports no change, no cascade is started and no event is
    produced. *)
Theorem unknown_master_is_ignored name masterid w :
  masters (db w) !! masterid = None ->
  fails w = false ->
  masterStopped name masterid w =
    (Ok tt,
     mkWorld (db w) (seconds w) (tl (faults w))
       (trace w ++ [CallSetMasterState masterid false false])) /\
  masterActive name masterid w =
    (Ok tt,
     mkWorld (db w) (seconds w) (tl (faults w))
       (trace w ++ [CallSetMasterState masterid true false])).
Proof.
  intros Hrow Hf. rewrite masterStopped_run, masterActive_run, Hf, Hrow.
  simpl. rewrite !alter_missing by done. by destruct (db w).
Qed.

Lemma unknown_master_is_ignored_witness :
  masterStopped "Z" 99 sample_world =
    (Ok tt, mkWorld sample_db 660 [] [CallSetMasterState 99 false false]).
Proof.
  apply (unknown_master_is_ignored "Z" 99 sample_world); reflexivity.
Defined.

(** X11: repeated heartbeats.  For a master of the store, two calls of
    [masterActive] whose transitions go through, the second [dt] seconds
    after the first, produce the event "started" at most once: once, in the
    first call, when the master was inactive, and never when it was active;
    the second call reports no change, and each call sets [last_active] to
    the reading of the clock at that call. *)
Theorem masterActive_twice name masterid w row dt :
  masters (db w) !! masterid = Some row ->
  fails w = false ->
  fails (masterActive name masterid w).2 = false ->
  published (trace (masterActive name masterid w).2) =
    published (trace w) ++
      (if master_active row then []
       else [(mkMessage masterid name true, "started"%string)]) /\
  trace (masterActive name masterid
           (later dt (masterActive name masterid w).2)).2 =
    trace (masterActive name masterid w).2 ++
      [CallSetMasterState masterid true false] /\
  masters (db (masterActive name masterid
                 (later dt (masterActive name masterid w).2)).2)
    !! masterid =
    Some (MasterRow (master_name row) true (Some (seconds w + dt))).
Proof.
  intros Hrow Hf Hf1.
  destruct (masterActive_row name masterid w row Hrow Hf)
    as (_ & Hrow1 & Hs1).
  split_and!.
  - rewrite masterActive_run, Hf, Hrow.
    destruct (master_active row); simpl;
      rewrite <- ?app_assoc, published_app; simpl;
      by rewrite ?app_nil_r.
  - rewrite (masterActive_run name masterid (later dt _)).
    change (fails (later dt (masterActive name masterid w).2))
      with (fails (masterActive name masterid w).2).
    rewrite Hf1. simpl. by rewrite Hrow1.
  - rewrite (masterActive_run name masterid (later dt _)).
    change (fails (later dt (masterActive name masterid w).2))
      with (fails (masterActive name masterid w).2).
    rewrite Hf1. simpl. rewrite Hrow1. simpl.
    by rewrite lookup_alter_eq, Hrow1, Hs1.
Qed.

Lemma masterActive_twice_witness :
  published (trace (masterActive "A" 7 stopped_world).2) =
    [(mkMessage 7 "A" true, "started"%string)] /\
  trace (masterActive "A" 7 (later 5 (masterActive "A" 7 stopped_world).2)).2 =
    trace (masterActive "A" 7 stopped_world).2 ++
      [CallSetMasterState 7 true false].
Proof.
  destruct (masterActive_twice "A" 7 stopped_world
              (MasterRow "A" false (Some 600)) 5) as (H1 & H2 & _);
    [reflexivity..|].
  split; [exact H1|exact H2].
Defined.

(** X12: activation and deactivation alternate.  For a master of the store,
    a [masterStopped] after a [masterActive] that went through is a real
    deactivation: its transition reports a change and its cascade starts;
    and a [masterActive] after a [masterStopped], whatever the outcome of
    the cascade of that stop, is a real activation that produces the event
    "started". *)
Theorem transitions_alternate name masterid w row :
  masters (db w) !! masterid = Some row ->
  fails w = false ->
  (fails (masterActive name masterid w).2 = false ->
   exists calls,
     trace (masterStopped name masterid (masterActive name masterid w).2).2 =
       trace (masterActive name masterid w).2 ++
         CallSetMasterState masterid false true ::
         CallLogMsg masterid name :: calls) /\
  (fails (masterStopped name masterid w).2 = false ->
   trace (masterActive name masterid (masterStopped name masterid w).2).2 =
     trace (masterStopped name masterid w).2 ++
       [CallSetMasterState masterid true true;
        CallProduceEvent (mkMessage masterid name true) "started"]).
Proof.
  intros Hrow Hf. split.
  - intros Hf1.
    destruct (masterActive_row name masterid w row Hrow Hf)
      as (_ & Hrow1 & _).
    rewrite (masterStopped_run name masterid (masterActive _ _ _).2).
    rewrite Hf1, Hrow1. simpl.
    set (w1 := mkWorld _ _ _ _).
    destruct (masterDeactivated_history masterid name w1)
      as (calls & _ & _ & Ht).
    destruct (_masterDeactivated masterid name w1).1.
    + eexists. rewrite Ht. subst w1. simpl. by rewrite <- app_assoc.
    + eexists. rewrite Ht. subst w1. simpl. by rewrite <- app_assoc.
  - assert (masters (db (masterStopped name masterid w).2) !! masterid =
              Some (MasterRow (master_name row) false
                      (master_last_active row))) as Hrow1.
    { rewrite masterStopped_run, Hf, Hrow.
      destruct (master_active row) eqn:Hactive.
      - destruct (masterDeactivated_history masterid name
                    (perform (CallSetMasterState masterid false true)
                       (consume w)).2) as (calls & _ & Hm & _).
        rewrite Hm. simpl. by rewrite lookup_alter_eq, Hrow.
      - simpl. by rewrite lookup_alter_eq, Hrow. }
    intros Hf1.
    rewrite (masterActive_run name masterid (masterStopped _ _ _).2).
    rewrite Hf1, Hrow1. simpl. by rewrite <- app_assoc.
Qed.

Lemma transitions_alternate_witness :
  trace (masterActive "A" 7 (masterStopped "A" 7 sample_world).2).2 =
    trace (masterStopped "A" 7 sample_world).2 ++
      [CallSetMasterState 7 true true;
       CallProduceEvent (mkMessage 7 "A" true) "started"].
Proof.
  destruct (transitions_alternate "A" 7 sample_world
              (MasterRow "A" true (Some 59))) as [_ H]; [reflexivity..|].
  apply H. vm_compute. reflexivity.
Defined.

(** * More on the cascade *)



Lemma claimed_open_apply_call now c masterid d k :
  claimed_open masterid (apply_call now c d) k -> claimed_open masterid d k.
Proof.
  unfold claimed_open. destruct c; simpl; try done.
  intros (r & Hr & Hm & Hc). rewrite unclaim_all_lookup in Hr.
  case_decide; [|by exists r].
  destruct (buildrequests d !! k); simplify_eq/=.
Qed.






(** X14: the cascade is about the work of a master, not about its
    membership.  Whatever its outcome, it leaves the table of masters and
    the clock as they were, makes no state transition and produces no
    event. *)
Theorem cascade_keeps_membership masterid name w :
  masters (db (_masterDeactivatedHousekeeping masterid name w).2) =
    masters (db w) /\
  seconds (_masterDeactivatedHousekeeping masterid name w).2 = seconds w /\
  published (trace (_masterDeactivatedHousekeeping masterid name w).2) =
    published (trace w) /\
  changes (trace (_masterDeactivatedHousekeeping masterid name w).2) =
    changes (trace w).
Proof.
  destruct (housekeeping_history masterid name w)
    as (calls & Hcalls & Ht & Hm).
  destruct (housekeeping_extends masterid name w) as (_ & _ & _ & _ & Hs & _).
  split_and!; [done|done| |].
  - rewrite Ht, published_app.
    change (published (trace w) ++ published calls = published (trace w)).
    rewrite (published_cascade calls Hcalls). apply app_nil_r.
  - rewrite Ht. unfold changes at 1. rewrite omap_app.
    change (changes (trace w) ++ changes calls = changes (trace w)).
    rewrite (changes_cascade calls Hcalls). apply app_nil_r.
Qed.

(** X15: a cascade for a master that owns nothing (no incomplete build, no
    claimed incomplete request; in particular a master that is unknown)
    leaves the whole store as it is, whatever its outcome: it only logs,
    notifies the other resource types and releases the empty list of
    requests. *)
Theorem cascade_of_idle_master masterid name w :
  (forall k, ~ open_build masterid (db w) k) ->
  (forall k, ~ claimed_open masterid (db w) k) ->
  db (_masterDeactivatedHousekeeping masterid name w).2 = db w /\
  exists calls,
    Forall quiet calls /\
    trace (_masterDeactivatedHousekeeping masterid name w).2 =
      trace w ++ calls.
Proof.
  intros Hbuilds Hclaims.
  pose proof (housekeeping_again masterid name w Hbuilds Hclaims) as Hext.
  split; [by apply extends_quiet|].
  destruct Hext as (calls & Hcalls & Ht & _). by exists calls.
Qed.

Lemma cascade_of_idle_master_witness :
  db (_masterDeactivatedHousekeeping 99 "Z" sample_world).2 =
    db sample_world.
Proof.
  apply (cascade_of_idle_master 99 "Z" sample_world).
  - intros k (r & Hr & Hm & _).
    destruct (decide (k = 42)) as [->|?]; [by vm_compute in Hr; simplify_eq|].
    destruct (decide (k = 43)) as [->|?]; [by vm_compute in Hr; simplify_eq|].
    simpl in Hr.
    by rewrite lookup_insert_ne, lookup_singleton_ne in Hr.
  - intros k (r & Hr & _ & Hm).
    destruct (decide (k = 9)) as [->|?]; [by vm_compute in Hr; simplify_eq|].
    destruct (decide (k = 10)) as [->|?]; [by vm_compute in Hr; simplify_eq|].
    simpl in Hr.
    by rewrite lookup_insert_ne, lookup_singleton_ne in Hr.
Defined.

(** ** The cascade only touches the work of its master *)

(** A call is in scope when what it finishes or releases is, at that
    moment, open work of the master: an incomplete build of the master, an
    open step of such a build, an open log of such a step, incomplete
    requests claimed by the master. *)
Definition in_scope (masterid : Z) (d : Db) (c : Call) : Prop :=
  match c with
  | CallFinishBuild b _ => open_build masterid d b
  | CallFinishStep s _ _ =>
      exists b, open_step b d s /\ open_build masterid d b
  | CallFinishLog l =>
      exists s b, open_log s d l /\ open_step b d s /\ open_build masterid d b
  | CallUnclaimBuildRequests brids =>
      forall k, k ∈ brids -> claimed_open masterid d k
  | _ => True
  end.

Fixpoint scoped (now masterid : Z) (d : Db) (calls : list Call) : Prop :=
  match calls with
  | [] => True
  | c :: rest =>
      in_scope masterid d c /\ scoped now masterid (apply_call now c d) rest
  end.

Lemma scoped_app now masterid d calls1 calls2 :
  scoped now masterid d (calls1 ++ calls2) <->
  scoped now masterid d calls1 /\
  scoped now masterid (replay now d calls1) calls2.
Proof.
  revert d. induction calls1 as [|c calls1 IH]; intros d; simpl.
  - tauto.
  - rewrite IH. tauto.
Qed.

Definition in_scope_so_far (masterid : Z) (w0 w : World) : Prop :=
  exists calls,
    trace w = trace w0 ++ calls /\
    db w = replay (seconds w0) (db w0) calls /\
    seconds w = seconds w0 /\
    scoped (seconds w0) masterid (db w0) calls.

Lemma in_scope_so_far_refl masterid w : in_scope_so_far masterid w w.
Proof. exists []. by rewrite app_nil_r. Qed.

Lemma in_scope_so_far_perform masterid w0 w c :
  in_scope_so_far masterid w0 w -> in_scope masterid (db w) c ->
  in_scope_so_far masterid w0 (perform c w).2.
Proof.
  intros (calls & Ht & Hd & Hs & Ho) Hc. exists (calls ++ [c]). simpl.
  split_and!.
  - by rewrite Ht, app_assoc.
  - by rewrite replay_app, <- Hd, Hs.
  - done.
  - apply scoped_app. split; [done|]. simpl. by rewrite <- Hd.
Qed.

(** What is open stays open under every call but the one that closes it. *)
Lemma open_build_kept now c masterid d b :
  open_build masterid d b ->
  (forall results, c <> CallFinishBuild b results) ->
  open_build masterid (apply_call now c d) b.
Proof.
  intros (r & Hr & Hm & Hc) Hne. destruct c; try (by exists r).
  exists r. simpl. rewrite lookup_alter_ne; [done|].
  intros ->. by eapply Hne.
Qed.

Lemma open_step_kept now c buildid d s :
  open_step buildid d s ->
  (forall results hidden, c <> CallFinishStep s results hidden) ->
  open_step buildid (apply_call now c d) s.
Proof.
  intros (r & Hr & Hm & Hc) Hne. destruct c; try (by exists r).
  exists r. simpl. rewrite lookup_alter_ne; [done|].
  intros ->. by eapply Hne.
Qed.

Lemma open_log_kept now c stepid d l :
  open_log stepid d l ->
  c <> CallFinishLog l ->
  open_log stepid (apply_call now c d) l.
Proof.
  intros (r & Hr & Hm & Hc) Hne. destruct c; try (by exists r).
  exists r. simpl. rewrite lookup_alter_ne; [done|].
  by intros ->.
Qed.

(** The rest of a snapshot: distinct ids, all still open. *)
Definition builds_open (masterid : Z) (l : list (Z * build_row)) (w : World)
  : Prop :=
  NoDup (buildid <$> l) /\
  forall b, b ∈ buildid <$> l -> open_build masterid (db w) b.

Definition steps_open (buildid : Z) (l : list (Z * step_row)) (w : World)
  : Prop :=
  NoDup (stepid <$> l) /\
  forall s, s ∈ stepid <$> l -> open_step buildid (db w) s.

Definition logs_open (stepid : Z) (l : list (Z * log_row)) (w : World)
  : Prop :=
  NoDup (logid <$> l) /\
  forall k, k ∈ logid <$> l -> open_log stepid (db w) k.

Lemma builds_open_perform masterid l c w :
  builds_open masterid l w ->
  (forall b results, c = CallFinishBuild b results -> b ∉ buildid <$> l) ->
  builds_open masterid l (perform c w).2.
Proof.
  intros [Hnodup Hopen] Hc. split; [done|]. intros b Hb.
  apply open_build_kept; [by apply Hopen|].
  intros results ->. by eapply Hc.
Qed.

Lemma steps_open_perform buildid l c w :
  steps_open buildid l w ->
  (forall s results hidden,
     c = CallFinishStep s results hidden -> s ∉ stepid <$> l) ->
  steps_open buildid l (perform c w).2.
Proof.
  intros [Hnodup Hopen] Hc. split; [done|]. intros s Hs.
  apply open_step_kept; [by apply Hopen|].
  intros results hidden ->. by eapply Hc.
Qed.

Lemma logs_open_perform stepid l c w :
  logs_open stepid l w ->
  (forall k, c = CallFinishLog k -> k ∉ logid <$> l) ->
  logs_open stepid l (perform c w).2.
Proof.
  intros [Hnodup Hopen] Hc. split; [done|]. intros k Hk.
  apply open_log_kept; [by apply Hopen|].
  intros ->. by eapply Hc.
Qed.

Lemma builds_open_tail masterid x l w :
  builds_open masterid (x :: l) w ->
  (buildid x ∉ buildid <$> l) /\ builds_open masterid l w.
Proof.
  intros [Hnodup Hopen]. rewrite fmap_cons in *.
  apply NoDup_cons in Hnodup as [Hx Hnodup]. split; [done|].
  split; [done|]. intros b Hb. by apply Hopen, list_elem_of_further.
Qed.

Lemma steps_open_tail buildid x l w :
  steps_open buildid (x :: l) w ->
  (stepid x ∉ stepid <$> l) /\ steps_open buildid l w.
Proof.
  intros [Hnodup Hopen]. rewrite fmap_cons in *.
  apply NoDup_cons in Hnodup as [Hx Hnodup]. split; [done|].
  split; [done|]. intros s Hs. by apply Hopen, list_elem_of_further.
Qed.

Lemma logs_open_tail stepid x l w :
  logs_open stepid (x :: l) w ->
  (logid x ∉ logid <$> l) /\ logs_open stepid l w.
Proof.
  intros [Hnodup Hopen]. rewrite fmap_cons in *.
  apply NoDup_cons in Hnodup as [Hx Hnodup]. split; [done|].
  split; [done|]. intros k Hk. by apply Hopen, list_elem_of_further.
Qed.

Lemma finish_log_in_scope masterid w0 build builds step steps _log rest :
  hoare
    (fun w => in_scope_so_far masterid w0 w /\
              builds_open masterid (build :: builds) w /\
              steps_open (buildid build) (step :: steps) w /\
              logs_open (stepid step) (_log :: rest) w)
    (finishLog (logid _log))
    (fun _ w => in_scope_so_far masterid w0 w /\
                builds_open masterid (build :: builds) w /\
                steps_open (buildid build) (step :: steps) w /\
                logs_open (stepid step) rest w)
    (fun _ => in_scope_so_far masterid w0).
Proof.
  apply hoare_store_op.
  - by intros w (Hs & _).
  - intros w (Hs & Hbuilds & Hsteps & Hlogs).
    change (db (consume w)) with (db w) in *.
    destruct (logs_open_tail _ _ _ _ Hlogs) as [Hnotin Hrest].
    split_and!.
    + apply in_scope_so_far_perform; [done|]. simpl.
      exists (stepid step), (buildid build). split_and!.
      * apply Hlogs. rewrite fmap_cons. apply list_elem_of_here.
      * apply Hsteps. rewrite fmap_cons. apply list_elem_of_here.
      * apply Hbuilds. rewrite fmap_cons. apply list_elem_of_here.
    + by apply (builds_open_perform masterid _ _ (consume w)).
    + by apply (steps_open_perform _ _ _ (consume w)).
    + apply (logs_open_perform _ _ _ (consume w)); [done|].
      by intros k [= <-].
Qed.

Lemma nodup_query {A} (t : gmap Z A) (P : Z * A -> Prop)
  `{!forall x, Decision (P x)} (f : Z * A -> Z) :
  (forall x, f x = x.1) ->
  NoDup (f <$> map_to_list (filter P t)).
Proof.
  intros Hf.
  replace (f <$> map_to_list (filter P t))
    with ((map_to_list (filter P t)).*1).
  - apply NoDup_fst_map_to_list.
  - apply list_fmap_ext. intros _ x _. by rewrite Hf.
Qed.

Lemma stop_step_in_scope masterid w0 build builds step steps :
  hoare
    (fun w => in_scope_so_far masterid w0 w /\
              builds_open masterid (build :: builds) w /\
              steps_open (buildid build) (step :: steps) w)
    (stop_step step)
    (fun _ w => in_scope_so_far masterid w0 w /\
                builds_open masterid (build :: builds) w /\
                steps_open (buildid build) steps w)
    (fun _ => in_scope_so_far masterid w0).
Proof.
  unfold stop_step. eapply hoare_bind.
  { apply hoare_query with
      (Q := fun logs w => in_scope_so_far masterid w0 w /\
              builds_open masterid (build :: builds) w /\
              steps_open (buildid build) (step :: steps) w /\
              logs_open (stepid step) logs w).
    - by intros w [Hs _].
    - intros w (Hs & Hbuilds & Hsteps). split_and!; [done..|].
      split; [by apply nodup_query|].
      intros k Hk. by apply elem_of_open_logs. }
  intros logs. eapply hoare_bind.
  { apply (hoare_for_each _
             (fun l w => in_scope_so_far masterid w0 w /\
                builds_open masterid (build :: builds) w /\
                steps_open (buildid build) (step :: steps) w /\
                logs_open (stepid step) l w)).
    intros _log rest. apply finish_log_in_scope. }
  intros ?. apply hoare_store_op.
  - by intros w (Hs & _).
  - intros w (Hs & Hbuilds & Hsteps & _).
    change (db (consume w)) with (db w) in *.
    destruct (steps_open_tail _ _ _ _ Hsteps) as [Hnotin Hrest].
    split_and!.
    + apply in_scope_so_far_perform; [done|]. simpl.
      exists (buildid build). split.
      * apply Hsteps. rewrite fmap_cons. apply list_elem_of_here.
      * apply Hbuilds. rewrite fmap_cons. apply list_elem_of_here.
    + by apply (builds_open_perform masterid _ _ (consume w)).
    + apply (steps_open_perform _ _ _ (consume w)); [done|].
      by intros s results hidden [= <- _ _].
Qed.

Lemma stop_build_in_scope masterid w0 build builds :
  hoare
    (fun w => in_scope_so_far masterid w0 w /\
              builds_open masterid (build :: builds) w)
    (stop_build build)
    (fun _ w => in_scope_so_far masterid w0 w /\
                builds_open masterid builds w)
    (fun _ => in_scope_so_far masterid w0).
Proof.
  unfold stop_build. eapply hoare_bind.
  { apply hoare_query with
      (Q := fun steps w => in_scope_so_far masterid w0 w /\
              builds_open masterid (build :: builds) w /\
              steps_open (buildid build) steps w).
    - by intros w [Hs _].
    - intros w (Hs & Hbuilds). split_and!; [done..|].
      split; [by apply nodup_query|].
      intros k Hk. by apply elem_of_open_steps. }
  intros steps. eapply hoare_bind.
  { apply (hoare_for_each _
             (fun l w => in_scope_so_far masterid w0 w /\
                builds_open masterid (build :: builds) w /\
                steps_open (buildid build) l w)).
    intros step rest. apply stop_step_in_scope. }
  intros ?. apply hoare_store_op.
  - by intros w (Hs & _).
  - intros w (Hs & Hbuilds & _).
    change (db (consume w)) with (db w) in *.
    destruct (builds_open_tail _ _ _ _ Hbuilds) as [Hnotin Hrest].
    split.
    + apply in_scope_so_far_perform; [done|]. simpl.
      apply Hbuilds. rewrite fmap_cons. apply list_elem_of_here.
    + apply (builds_open_perform masterid _ _ (consume w)); [done|].
      by intros b results [= <- _].
Qed.

Lemma housekeeping_in_scope w0 masterid name :
  hoare (in_scope_so_far masterid w0)
    (_masterDeactivatedHousekeeping masterid name)
    (fun _ => in_scope_so_far masterid w0)
    (fun _ => in_scope_so_far masterid w0).
Proof.
  unfold _masterDeactivatedHousekeeping, log_msg, rtype_masterDeactivated.
  assert (forall c,
            (forall d, in_scope masterid d c) ->
            hoare (in_scope_so_far masterid w0) (perform c)
              (fun _ => in_scope_so_far masterid w0)
              (fun _ => in_scope_so_far masterid w0)) as Hperform.
  { intros c Hc. apply hoare_perform. intros w Hw.
    by apply in_scope_so_far_perform. }
  assert (forall e,
            hoare (in_scope_so_far masterid w0) (external_call e)
              (fun _ => in_scope_so_far masterid w0)
              (fun _ => in_scope_so_far masterid w0)) as Hcall
    by (intros e; by apply hoare_external_call).
  eapply hoare_bind; [by apply Hperform|intros ?].
  do 4 (eapply hoare_bind;
    [eapply hoare_bind; [by apply Hperform|intros ?; apply Hcall]
    |intros ?]).
  eapply hoare_bind.
  { apply hoare_query with
      (Q := fun builds w => in_scope_so_far masterid w0 w /\
              builds_open masterid builds w).
    - done.
    - intros w Hs. split; [done|].
      split; [by apply nodup_query|].
      intros k Hk. by apply elem_of_open_builds. }
  intros builds. eapply hoare_bind.
  { apply (hoare_for_each _
             (fun l w => in_scope_so_far masterid w0 w /\
                builds_open masterid l w)).
    intros build rest. apply stop_build_in_scope. }
  intros ?. eapply hoare_bind.
  { apply hoare_query with
      (Q := fun brs w => in_scope_so_far masterid w0 w /\
              forall k, k ∈ buildrequestid <$> brs ->
                        claimed_open masterid (db w) k).
    - by intros w [Hs _].
    - intros w [Hs _]. split; [done|].
      intros k Hk. by apply elem_of_claimed_open. }
  intros brs. apply hoare_store_op.
  - by intros w [Hs _].
  - intros w [Hs Hbrs]. by apply in_scope_so_far_perform.
Qed.

Lemma housekeeping_scoped masterid name w :
  exists calls,
    trace (_masterDeactivatedHousekeeping masterid name w).2 =
      trace w ++ calls /\
    db (_masterDeactivatedHousekeeping masterid name w).2 =
      replay (seconds w) (db w) calls /\
    scoped (seconds w) masterid (db w) calls.
Proof.
  pose proof (housekeeping_in_scope w masterid name w
                (in_scope_so_far_refl masterid w)) as H.
  assert (in_scope_so_far masterid w
            (_masterDeactivatedHousekeeping masterid name w).2)
    as (calls & Ht & Hdb & _ & Hs)
    by by destruct (_masterDeactivatedHousekeeping masterid name w)
         as [[[]|e] w'].
  by exists calls.
Qed.

(** X16: whatever its outcome, the cascade finishes and releases only open
    work of its master: in the history that leads to the store it reaches,
    every build is finished while it is an incomplete build of the master,
    every step while it is an open step of such a build, every log while it
    is an open log of such a step, and the requests released are incomplete
    requests claimed by the master. *)
Theorem cascade_stays_in_scope masterid name w :
  exists calls,
    trace (_masterDeactivatedHousekeeping masterid name w).2 =
      trace w ++ calls /\
    db (_masterDeactivatedHousekeeping masterid name w).2 =
      replay (seconds w) (db w) calls /\
    scoped (seconds w) masterid (db w) calls.
Proof. apply housekeeping_scoped. Qed.

Lemma scoped_builds_kept now masterid d calls k :
  scoped now masterid d calls ->
  ~ open_build masterid d k ->
  builds (replay now d calls) !! k = builds d !! k.
Proof.
  revert d. induction calls as [|c calls IH]; intros d Hs Hk; [done|].
  destruct Hs as [Hc Hs]. simpl. rewrite IH; [|done|].
  - destruct c; try done. simpl in *. rewrite lookup_alter_ne; [done|].
    by intros ->.
  - intros H. by apply open_build_apply_call in H.
Qed.

Lemma scoped_steps_kept now masterid d calls s :
  scoped now masterid d calls ->
  (forall b, open_step b d s -> ~ open_build masterid d b) ->
  steps (replay now d calls) !! s = steps d !! s.
Proof.
  revert d. induction calls as [|c calls IH]; intros d Hs Hk; [done|].
  destruct Hs as [Hc Hs]. simpl. rewrite IH; [|done|].
  - destruct c; try done. simpl in *. rewrite lookup_alter_ne; [done|].
    intros ->. destruct Hc as (b & Hstep & Hbuild). by apply (Hk b).
  - intros b Hstep Hbuild.
    apply open_step_apply_call in Hstep.
    apply open_build_apply_call in Hbuild. by apply (Hk b).
Qed.

Lemma scoped_logs_kept now masterid d calls l :
  scoped now masterid d calls ->
  (forall s b, open_log s d l -> open_step b d s ->
               ~ open_build masterid d b) ->
  logs (replay now d calls) !! l = logs d !! l.
Proof.
  revert d. induction calls as [|c calls IH]; intros d Hs Hk; [done|].
  destruct Hs as [Hc Hs]. simpl. rewrite IH; [|done|].
  - destruct c; try done. simpl in *. rewrite lookup_alter_ne; [done|].
    intros ->. destruct Hc as (s & b & Hlog & Hstep & Hbuild).
    by apply (Hk s b).
  - intros s b Hlog Hstep Hbuild.
    apply open_log_apply_call in Hlog.
    apply open_step_apply_call in Hstep.
    apply open_build_apply_call in Hbuild. by apply (Hk s b).
Qed.

Lemma scoped_buildrequests_kept now masterid d calls k :
  scoped now masterid d calls ->
  ~ claimed_open masterid d k ->
  buildrequests (replay now d calls) !! k = buildrequests d !! k.
Proof.
  revert d. induction calls as [|c calls IH]; intros d Hs Hk; [done|].
  destruct Hs as [Hc Hs]. simpl. rewrite IH; [|done|].
  - destruct c; try done. simpl in *. rewrite unclaim_all_lookup.
    rewrite decide_False; [done|]. intros Hin. by apply Hk, Hc.
  - intros H. by apply claimed_open_apply_call in H.
Qed.

(** X17: whatever its outcome, the cascade for a master leaves all other
    work exactly as it was: every build that is not an incomplete build of
    the master (so every build of another master), every step that is not
    an open step of such a build, every log that is not an open log of such
    a step, and every request that is not an incomplete request claimed by
    the master. *)
Theorem cascade_leaves_other_work masterid name w :
  (forall k,
     ~ open_build masterid (db w) k ->
     builds (db (_masterDeactivatedHousekeeping masterid name w).2) !! k =
     builds (db w) !! k) /\
  (forall k r,
     builds (db w) !! k = Some r -> build_masterid r <> masterid ->
     builds (db (_masterDeactivatedHousekeeping masterid name w).2) !! k =
     Some r) /\
  (forall s,
     (forall b, open_step b (db w) s -> ~ open_build masterid (db w) b) ->
     steps (db (_masterDeactivatedHousekeeping masterid name w).2) !! s =
     steps (db w) !! s) /\
  (forall l,
     (forall s b, open_log s (db w) l -> open_step b (db w) s ->
                  ~ open_build masterid (db w) b) ->
     logs (db (_masterDeactivatedHousekeeping masterid name w).2) !! l =
     logs (db w) !! l) /\
  (forall k,
     ~ claimed_open masterid (db w) k ->
     buildrequests (db (_masterDeactivatedHousekeeping masterid name w).2)
       !! k =
     buildrequests (db w) !! k).
Proof.
  destruct (housekeeping_scoped masterid name w) as (calls & _ & Hdb & Hs).
  rewrite Hdb. split_and!.
  - intros k Hk. by apply (scoped_builds_kept _ masterid).
  - intros k r Hr Hm. rewrite (scoped_builds_kept _ masterid); [done..|].
    intros (r' & Hr' & Hm' & _). congruence.
  - intros s Hk. by apply (scoped_steps_kept _ masterid).
  - intros l Hk. by apply (scoped_logs_kept _ masterid).
  - intros k Hk. by apply (scoped_buildrequests_kept _ masterid).
Qed.

(** The builds, steps and logs finished in a history, in order. *)
Definition finished_builds (t : list Call) : list Z :=
  omap (fun c => match c with
                 | CallFinishBuild b _ => Some b
                 | _ => None
                 end) t.

Definition finished_steps (t : list Call) : list Z :=
  omap (fun c => match c with
                 | CallFinishStep s _ _ => Some s
                 | _ => None
                 end) t.

Definition finished_logs (t : list Call) : list Z :=
  omap (fun c => match c with
                 | CallFinishLog l => Some l
                 | _ => None
                 end) t.

Lemma scoped_finished_builds now masterid d calls b :
  scoped now masterid d calls ->
  b ∈ finished_builds calls -> open_build masterid d b.
Proof.
  revert d. induction calls as [|c calls IH]; intros d Hs Hin;
    [by apply elem_of_nil in Hin|].
  destruct Hs as [Hc Hs].
  assert (b ∈ finished_builds calls -> open_build masterid d b) as Hrest.
  { intros H. eapply open_build_apply_call, IH; done. }
  destruct c; try (by apply Hrest).
  apply elem_of_cons in Hin as [->|Hin]; [done|by apply Hrest].
Qed.

Lemma scoped_finished_steps now masterid d calls s :
  scoped now masterid d calls ->
  s ∈ finished_steps calls -> exists b, open_step b d s.
Proof.
  revert d. induction calls as [|c calls IH]; intros d Hs Hin;
    [by apply elem_of_nil in Hin|].
  destruct Hs as [Hc Hs].
  assert (s ∈ finished_steps calls -> exists b, open_step b d s) as Hrest.
  { intros H. destruct (IH _ Hs H) as [b Hb]. exists b.
    by eapply open_step_apply_call. }
  destruct c; try (by apply Hrest).
  apply elem_of_cons in Hin as [->|Hin]; [|by apply Hrest].
  destruct Hc as (b & Hb & _). by exists b.
Qed.

Lemma scoped_finished_logs now masterid d calls l :
  scoped now masterid d calls ->
  l ∈ finished_logs calls -> exists s, open_log s d l.
Proof.
  revert d. induction calls as [|c calls IH]; intros d Hs Hin;
    [by apply elem_of_nil in Hin|].
  destruct Hs as [Hc Hs].
  assert (l ∈ finished_logs calls -> exists s, open_log s d l) as Hrest.
  { intros H. destruct (IH _ Hs H) as [s Hl]. exists s.
    by eapply open_log_apply_call. }
  destruct c; try (by apply Hrest).
  apply elem_of_cons in Hin as [->|Hin]; [|by apply Hrest].
  destruct Hc as (s & b & Hl & _). by exists s.
Qed.

Lemma scoped_finished_once now masterid d calls :
  scoped now masterid d calls ->
  NoDup (finished_builds calls) /\
  NoDup (finished_steps calls) /\
  NoDup (finished_logs calls).
Proof.
  revert d. induction calls as [|c calls IH]; intros d Hs.
  { split_and!; constructor. }
  destruct Hs as [Hc Hs]. destruct (IH _ Hs) as (Hb & Hst & Hl).
  destruct c; try done.
  - split_and!; [done..|]. apply NoDup_cons. split; [|done].
    intros Hin.
    destruct (scoped_finished_logs _ _ _ _ _ Hs Hin) as [s Hopen].
    by apply open_log_finished in Hopen as [_ ?].
  - split_and!; [done| |done]. apply NoDup_cons. split; [|done].
    intros Hin.
    destruct (scoped_finished_steps _ _ _ _ _ Hs Hin) as [b Hopen].
    by apply open_step_finished in Hopen as [_ ?].
  - split_and!; [|done..]. apply NoDup_cons. split; [|done].
    intros Hin.
    pose proof (scoped_finished_builds _ _ _ _ _ Hs Hin) as Hopen.
    by apply open_build_finished in Hopen as [_ ?].
Qed.

(** X18: whatever its outcome, one run of the cascade finishes no build, no
    step and no log twice. *)
Theorem cascade_finishes_once masterid name w :
  exists calls,
    trace (_masterDeactivatedHousekeeping masterid name w).2 =
      trace w ++ calls /\
    NoDup (finished_builds calls) /\
    NoDup (finished_steps calls) /\
    NoDup (finished_logs calls).
Proof.
  destruct (housekeeping_scoped masterid name w) as (calls & Ht & _ & Hs).
  exists calls. split; [done|].
  by apply (scoped_finished_once (seconds w) masterid (db w)).
Qed.

(** ** The endpoints on the sample cluster *)

Definition sample_builders : gmap Z BuilderModel :=
  {[ 1 := mkBuilderModel [7]; 2 := mkBuilderModel [8; 99] ]}.

Lemma MasterEndpoint_get_found_witness :
  associated sample_builders (Some 1) 7 /\
  exists row,
    masters sample_db !! 7 = Some row /\
    mkMasterData 7 "A" true (Some 59) =
      mkMasterData 7 (master_name row) (master_active row)
        (master_last_active row).
Proof.
  apply (MasterEndpoint_get_found sample_builders (mkKwargs (Some 1) 7)
           sample_world (Some (mkMasterData 7 "A" true (Some 59)))).
  - vm_compute. reflexivity.
  - reflexivity.
Defined.

Lemma endpoints_agree_witness :
  exists l,
    (MastersEndpoint_get sample_builders (Some 2) sample_world).1 = Ok l /\
    forall data,
      data ∈ l <->
      (MasterEndpoint_get sample_builders
         (mkKwargs (Some 2) (data_masterid data)) sample_world).1 =
        Ok (Some data).
Proof.
  apply (endpoints_agree sample_builders (Some 2) sample_world).
  reflexivity.
Defined.

Lemma MastersEndpoint_get_no_duplicates_witness :
  NoDup (data_masterid <$> [mkMasterData 8 "B" true (Some 60)]).
Proof.
  apply (MastersEndpoint_get_no_duplicates sample_builders (Some 2)
           sample_world [mkMasterData 8 "B" true (Some 60)]).
  vm_compute. reflexivity.
Defined.

Lemma endpoint_after_transition_witness :
  (MasterEndpoint_get sample_builders (mkKwargs None 7)
     (masterStopped "A" 7 sample_world).2).1 =
    Ok (Some (mkMasterData 7 "A" false (Some 59))).
Proof.
  apply (endpoint_after_transition sample_builders "A" 7 sample_world
           (MasterRow "A" true (Some 59))); reflexivity.
Defined.

(** * buildbot/process/debug.py *)

Module DebugServices.

Section Service.

(** A manhole as the service sees it: a value that it compares with [!=],
    tests for truth (a manhole is true, [None] is false) and calls. *)
Context {Manhole : Type} `{EqDecision Manhole}.

(** The calls that the service awaits: on a manhole, and on its parent
    class. *)
Inductive Call :=
| CallDisownServiceParent (manhole : Manhole)
| CallSetServiceParent (manhole : Manhole)
| CallSuperReconfigService (new_manhole : option Manhole)
| CallSuperStopService.

(** The service: its attribute [manhole], the outcomes of the calls to come
    ([true] makes a call raise; past the end of the list every call goes
    through) and the calls made so far.  The attribute is assigned by the
    two methods below only; the awaited calls act on the parent and the
    children of the service, which are outside this file. *)
Record State := mkState {
  manhole : option Manhole;
  outcomes : list bool;
  calls : list Call
}.

(** [__init__] leaves the service without a manhole. *)
Definition __init__ (outcomes : list bool) : State := mkState None outcomes [].

(** Code that awaits calls: [None] is a raised exception. *)
Definition D (A : Type) : Type := State -> option A * State.

Definition dret {A} (a : A) : D A := fun s => (Some a, s).

Definition dbind {A B} (m : D A) (k : A -> D B) : D B := fun s =>
  match m s with
  | (Some a, s') => k a s'
  | (None, s') => (None, s')
  end.

(** An awaited call: it is made, and then goes through or raises. *)
Definition await (c : Call) : D unit := fun s =>
  (match outcomes s with
   | true :: _ => None
   | _ => Some tt
   end,
   mkState (manhole s) (tl (outcomes s)) (calls s ++ [c])).

Definition get_manhole : D (option Manhole) := fun s => (Some (manhole s), s).

Definition set_manhole (m : option Manhole) : D unit := fun s =>
  (Some tt, mkState m (outcomes s) (calls s)).

(** [reconfigServiceWithBuildbotConfig]; of the new configuration the code
    reads the manhole only. *)
Definition reconfigServiceWithBuildbotConfig (new_manhole : option Manhole)
  : D unit :=
  dbind get_manhole (fun current =>
  dbind
    (if bool_decide (new_manhole <> current) then
       dbind
         (match current with
          | Some old =>
              dbind (await (CallDisownServiceParent old)) (fun _ =>
              set_manhole None)
          | None => dret tt
          end) (fun _ =>
       match new_manhole with
       | Some new =>
           dbind (set_manhole (Some new)) (fun _ =>
           await (CallSetServiceParent new))
       | None => dret tt
       end)
     else dret tt) (fun _ =>
  await (CallSuperReconfigService new_manhole))).

Definition stopService : D unit :=
  dbind (await CallSuperStopService) (fun _ =>
  dbind get_manhole (fun current =>
  match current with
  | Some _ => set_manhole None
  | None => dret tt
  end)).

(** The calls of a reconfiguration that goes through. *)
Definition expected_calls (current new_manhole : option Manhole)
  : list Call :=
  (if bool_decide (new_manhole <> current) then
     match current with
     | Some old => [CallDisownServiceParent old]
     | None => []
     end ++
     match new_manhole with
     | Some new => [CallSetServiceParent new]
     | None => []
     end
   else []) ++
  [CallSuperReconfigService new_manhole].

Definition goes_through (s : State) : bool :=
  match outcomes s with
  | true :: _ => false
  | _ => true
  end.

Lemma await_run c s :
  await c s =
  (if goes_through s then Some tt else None,
   mkState (manhole s) (tl (outcomes s)) (calls s ++ [c])).
Proof. unfold await, goes_through. by destruct (outcomes s) as [|[] ?]. Qed.

Lemma reconfig_run new_manhole s :
  (reconfigServiceWithBuildbotConfig new_manhole s).1 = Some tt ->
  manhole (reconfigServiceWithBuildbotConfig new_manhole s).2 = new_manhole /\
  calls (reconfigServiceWithBuildbotConfig new_manhole s).2 =
    calls s ++ expected_calls (manhole s) new_manhole.
Proof.
  unfold reconfigServiceWithBuildbotConfig, expected_calls, dbind,
    get_manhole, set_manhole, dret, await.
  destruct s as [current outs t]. simpl.
  destruct (bool_decide_reflect (new_manhole <> current)) as [Hne|Heq].
  - destruct current as [old|], new_manhole as [new|],
      outs as [|[] [|[] [|[] ?]]]; simpl;
      try done; try (by destruct Hne); intros _; split; try done;
      by rewrite <- ?app_assoc.
  - apply dec_stable in Heq. subst current.
    by destruct outs as [|[] ?].
Qed.

Lemma reconfig_same m outs t :
  reconfigServiceWithBuildbotConfig m (mkState m outs t) =
    (if goes_through (mkState m outs t) then Some tt else None,
     mkState m (tl outs) (t ++ [CallSuperReconfigService m])).
Proof.
  unfold reconfigServiceWithBuildbotConfig, dbind, get_manhole, dret. simpl.
  rewrite bool_decide_eq_false_2 by (by intros Hne; apply Hne).
  rewrite await_run. simpl. by destruct (goes_through _).
Qed.

(** X19: a reconfiguration that completes leaves the service with the
    manhole of the new configuration, and its calls are, in this order: the
    old manhole disowned (when there was one and the configuration differs),
    the new manhole attached (when there is one and the configuration
    differs), the reconfiguration of the parent class.  With the same
    manhole as before it only chains up. *)
Theorem reconfig_completed new_manhole s :
  (reconfigServiceWithBuildbotConfig new_manhole s).1 = Some tt ->
  manhole (reconfigServiceWithBuildbotConfig new_manhole s).2 = new_manhole /\
  calls (reconfigServiceWithBuildbotConfig new_manhole s).2 =
    calls s ++ expected_calls (manhole s) new_manhole.
Proof. apply reconfig_run. Qed.

(** X20: reconfiguring is idempotent.  After a reconfiguration that
    completed, a second one with the same manhole leaves the manhole in
    place and only chains up: it disowns nothing and attaches nothing,
    whatever its outcome. *)
Theorem reconfig_twice new_manhole s :
  (reconfigServiceWithBuildbotConfig new_manhole s).1 = Some tt ->
  manhole (reconfigServiceWithBuildbotConfig new_manhole
             (reconfigServiceWithBuildbotConfig new_manhole s).2).2 =
    new_manhole /\
  calls (reconfigServiceWithBuildbotConfig new_manhole
           (reconfigServiceWithBuildbotConfig new_manhole s).2).2 =
    calls (reconfigServiceWithBuildbotConfig new_manhole s).2 ++
      [CallSuperReconfigService new_manhole].
Proof.
  intros Hok. destruct (reconfig_run _ _ Hok) as [Hm _].
  destruct (reconfigServiceWithBuildbotConfig new_manhole s).2
    as [current outs t]. simpl in Hm. subst current.
  by rewrite reconfig_same.
Qed.

(** X21: failures while the manhole changes.  When disowning the old
    manhole raises, the service keeps the old manhole, attaches nothing and
    does not chain up.  When attaching the new manhole raises, the service
    has already recorded the new manhole, so that a later reconfiguration
    with the same configuration sees no difference and does not attach it
    again. *)
Theorem reconfig_failures s outs :
  outcomes s = true :: outs ->
  (forall old new_manhole,
     manhole s = Some old -> new_manhole <> Some old ->
     reconfigServiceWithBuildbotConfig new_manhole s =
       (None,
        mkState (Some old) outs (calls s ++ [CallDisownServiceParent old]))) /\
  (forall new,
     manhole s = None ->
     reconfigServiceWithBuildbotConfig (Some new) s =
       (None,
        mkState (Some new) outs (calls s ++ [CallSetServiceParent new])) /\
     calls (reconfigServiceWithBuildbotConfig (Some new)
              (reconfigServiceWithBuildbotConfig (Some new) s).2).2 =
       calls s ++ [CallSetServiceParent new;
                   CallSuperReconfigService (Some new)]).
Proof.
  intros Houts. destruct s as [current outs0 t]. simpl in Houts.
  subst outs0. split.
  - intros old new_manhole [= ->] Hne.
    unfold reconfigServiceWithBuildbotConfig, dbind, get_manhole. simpl.
    by rewrite bool_decide_eq_true_2.
  - intros new [= ->].
    assert (reconfigServiceWithBuildbotConfig (Some new)
              (mkState None (true :: outs) t) =
            (None, mkState (Some new) outs (t ++ [CallSetServiceParent new])))
      as Hrun.
    { unfold reconfigServiceWithBuildbotConfig, dbind, get_manhole.
      cbn [fst snd manhole]. by rewrite bool_decide_eq_true_2. }
    split; [done|]. rewrite Hrun. cbn [snd]. rewrite reconfig_same.
    cbn [snd calls]. by rewrite <- app_assoc.
Qed.

Lemma stopService_run s :
  stopService s =
    (if goes_through s then Some tt else None,
     mkState (if goes_through s then None else manhole s)
       (tl (outcomes s)) (calls s ++ [CallSuperStopService])).
Proof.
  unfold stopService, dbind, get_manhole, set_manhole, dret.
  rewrite await_run. destruct (goes_through s); simpl; [|done].
  by destruct (manhole s).
Qed.

(** X22: stopping forgets the manhole without disowning it.  When stopping
    the parent class raises, the manhole is left in place; when it goes
    through, the service ends without a manhole, and the only call made is
    the one to the parent class.  A reconfiguration after such a stop
    therefore attaches the configured manhole, also when it is the one the
    service had before the stop, and disowns nothing: its calls are the
    attachment and then, if that goes through, the reconfiguration of the
    parent class. *)
Theorem stop_then_reconfig s :
  calls (stopService s).2 = calls s ++ [CallSuperStopService] /\
  ((stopService s).1 = None -> manhole (stopService s).2 = manhole s) /\
  ((stopService s).1 = Some tt ->
   manhole (stopService s).2 = None /\
   forall new,
     manhole (reconfigServiceWithBuildbotConfig (Some new)
                (stopService s).2).2 = Some new /\
     exists rest,
       calls (reconfigServiceWithBuildbotConfig (Some new)
                (stopService s).2).2 =
         calls s ++ [CallSuperStopService; CallSetServiceParent new] ++ rest /\
       (rest = [] \/ rest = [CallSuperReconfigService (Some new)])).
Proof.
  rewrite stopService_run. cbn [fst snd calls manhole].
  split; [done|]. destruct (goes_through s); split; try done.
  intros _. split; [done|]. intros new.
  unfold reconfigServiceWithBuildbotConfig, dbind, get_manhole, set_manhole,
    dret, await.
  cbn [fst snd manhole outcomes calls].
  rewrite bool_decide_eq_true_2 by done.
  destruct (tl (outcomes s)) as [|[] [|[] ?]]; cbn; split; try done;
    first [by exists []; rewrite <- !app_assoc; auto
          |by exists [CallSuperReconfigService (Some new)];
             rewrite <- !app_assoc; auto].
Qed.

End Service.

Lemma reconfig_completed_witness :
  manhole (reconfigServiceWithBuildbotConfig (Some 2)
             (mkState (Some 1) [] [])).2 = Some 2 /\
  calls (reconfigServiceWithBuildbotConfig (Some 2)
           (mkState (Some 1) [] [])).2 =
    [CallDisownServiceParent 1; CallSetServiceParent 2;
     CallSuperReconfigService (Some 2)].
Proof.
  exact (reconfig_completed (Some 2) (mkState (Some 1) [] []) eq_refl).
Defined.

Lemma reconfig_twice_witness :
  calls (reconfigServiceWithBuildbotConfig (Some 2)
           (reconfigServiceWithBuildbotConfig (Some 2)
              (mkState (Some 1) [] [])).2).2 =
    calls (reconfigServiceWithBuildbotConfig (Some 2)
             (mkState (Some 1) [] [])).2 ++
      [CallSuperReconfigService (Some 2)].
Proof.
  exact (proj2 (reconfig_twice (Some 2) (mkState (Some 1) [] []) eq_refl)).
Defined.

Lemma reconfig_failures_witness :
  reconfigServiceWithBuildbotConfig (Some 2) (mkState (Some 1) [true] []) =
    (None, mkState (Some 1) [] [CallDisownServiceParent 1]).
Proof.
  apply (reconfig_failures (mkState (Some 1) [true] []) []);
    [reflexivity..|discriminate].
Defined.

Lemma stop_then_reconfig_witness :
  manhole (stopService (mkState (Some 1) [] [])).2 = None /\
  manhole (reconfigServiceWithBuildbotConfig (Some 1)
             (stopService (mkState (Some 1) [] [])).2).2 = Some 1.
Proof.
  destruct (stop_then_reconfig (mkState (Some 1) [] [])) as (_ & _ & Hstop).
  destruct (Hstop eq_refl) as [Hnone Hnew].
  split; [exact Hnone|exact (proj1 (Hnew 1))].
Defined.

End DebugServices.
